(** * Event_hub: the events page filter/sort pipeline and the auth modal

    A shallow embedding of two pieces of the application:
    - [EventsPage] (the events listing page): the filter effect that derives
      [filteredEvents] from [events] and the selected criteria, the effect
      that mirrors the search text and the category into the URL query
      parameters, and [clearFilters];
    - [AuthModal] (components/auth/AuthModal.jsx): the login/signup mode
      selector, in the two variants the repository carries.

    Conventions.  A JS string is a [string]; a JS array is a [list]; a JS
    number that holds a price, an attendee count or a time value is a [Z];
    an optional field ([attendees], [tags]) is an [option]. *)

From Stdlib Require Import ZArith List String Ascii Bool Lia Btauto.
From Stdlib Require Import Permutation Sorted.
Import ListNotations.

Local Open Scope string_scope.
Local Open Scope Z_scope.

(** ** Built-ins of the JavaScript host *)

(** The page calls three string built-ins.  [String.prototype.includes] is
    defined below.  [toLowerCase] and [localeCompare] depend on the Unicode
    tables and on the locale of the host, so they are taken as an interface.
    ECMAScript requires [localeCompare] to be a consistent comparator (a
    total preorder on strings): swapping the arguments swaps the sign, and
    "not after" is transitive. *)
Class JsHost := {
  toLowerCase : string -> string;
  localeCompare : string -> string -> Z;
  localeCompare_antisym :
    forall a b, localeCompare a b < 0 <-> 0 < localeCompare b a;
  localeCompare_trans :
    forall a b c,
      localeCompare a b <= 0 -> localeCompare b c <= 0 -> localeCompare a c <= 0
}.

(** [q] is a prefix of [s]. *)
Fixpoint startsWith (s q : string) {struct q} : bool :=
  match q, s with
  | EmptyString, _ => true
  | String _ _, EmptyString => false
  | String a q', String b s' => Ascii.eqb a b && startsWith s' q'
  end.

(** [s.includes(q)]: [q] occurs in [s] at some position. *)
Fixpoint includes (s q : string) : bool :=
  startsWith s q ||
  match s with
  | EmptyString => false
  | String _ s' => includes s' q
  end.

(** JS truthiness of a string: every string but the empty one. *)
Definition truthy (s : string) : bool := negb (String.eqb s "").

(** ** Data model *)

(** Modelled from the spec: the event records come from [getMockEvents]
    (data/mockData), which is not part of the sources at hand.  The fields
    are the ones the page reads, with the types of the spec's data model:
    [date] is a point in time, held as the time value of
    [new Date(event.date)] in milliseconds; [price] is a number, integral
    here (the price slider moves in steps of 10 between 0 and 1000);
    [attendees] and [tags] may be absent. *)
Record EventRecord := {
  id : string;
  title : string;
  description : string;
  location : string;
  category : string;
  date : Z;
  price : Z;
  isOnline : bool;
  attendees : option Z;
  tags : option (list string)
}.

(** The state variables the filter effect depends on, besides [events]. *)
Record Criteria := {
  searchQuery : string;
  selectedCategory : string;
  selectedType : string;
  priceRange : Z * Z;
  sortBy : string
}.

(** ** Array.prototype.sort with a comparator *)

(** [Array.prototype.sort] is stable (ECMAScript 2019).  With a consistent
    comparator the result of a stable sort does not depend on the
    algorithm (see [sortWith_unique]); the model is a stable insertion
    sort.  [compareFn a b > 0] puts [a] after [b]. *)
Section Sort.
Context {A : Type} (compareFn : A -> A -> Z).

Fixpoint insertSorted (x : A) (l : list A) : list A :=
  match l with
  | [] => [x]
  | y :: l' =>
      if compareFn x y <=? 0 then x :: l else y :: insertSorted x l'
  end.

Fixpoint sortWith (l : list A) : list A :=
  match l with
  | [] => []
  | x :: l' => insertSorted x (sortWith l')
  end.
End Sort.

(** A consistent comparator, as ECMAScript asks of [compareFn]. *)
Definition Consistent {A : Type} (compareFn : A -> A -> Z) : Prop :=
  (forall a b, compareFn a b < 0 <-> 0 < compareFn b a) /\
  (forall a b c, compareFn a b <= 0 -> compareFn b c <= 0 -> compareFn a c <= 0).

(** [a] and [b] are equal for the comparator. *)
Definition sameKey {A : Type} (compareFn : A -> A -> Z) (a b : A) : bool :=
  compareFn a b =? 0.

(** ** The filter effect of EventsPage *)

Section Derive.
Context `{JsHost}.

(** The predicate of the search filter, [query] already lowercased.
    [event.tags?.some(...)] is [undefined], hence falsy, without tags. *)
Definition matchesSearch (query : string) (event : EventRecord) : bool :=
  includes (toLowerCase (title event)) query ||
  includes (toLowerCase (description event)) query ||
  includes (toLowerCase (location event)) query ||
  match tags event with
  | Some ts => existsb (fun tag => includes (toLowerCase tag) query) ts
  | None => false
  end.

Definition searchFilter (c : Criteria) (filtered : list EventRecord) :=
  if truthy (searchQuery c) then
    let query := toLowerCase (searchQuery c) in
    filter (matchesSearch query) filtered
  else filtered.

Definition categoryFilter (c : Criteria) (filtered : list EventRecord) :=
  if truthy (selectedCategory c) then
    filter (fun event => String.eqb (category event) (selectedCategory c)) filtered
  else filtered.

Definition typeFilter (c : Criteria) (filtered : list EventRecord) :=
  if truthy (selectedType c) then
    if String.eqb (selectedType c) "online" then
      filter (fun event => isOnline event) filtered
    else if String.eqb (selectedType c) "offline" then
      filter (fun event => negb (isOnline event)) filtered
    else filtered
  else filtered.

Definition inPriceRange (c : Criteria) (event : EventRecord) : bool :=
  (price event >=? fst (priceRange c)) && (price event <=? snd (priceRange c)).

Definition priceFilter (c : Criteria) (filtered : list EventRecord) :=
  filter (inPriceRange c) filtered.

(** [b.attendees || 0]: an absent count, like a count of 0, gives 0. *)
Definition attendeesOr0 (event : EventRecord) : Z :=
  match attendees event with
  | Some n => n
  | None => 0
  end.

(** The comparator handed to [filtered.sort]. *)
Definition compareEvents (sortKey : string) (a b : EventRecord) : Z :=
  if String.eqb sortKey "date" then date a - date b
  else if String.eqb sortKey "price-low" then price a - price b
  else if String.eqb sortKey "price-high" then price b - price a
  else if String.eqb sortKey "popularity" then attendeesOr0 b - attendeesOr0 a
  else if String.eqb sortKey "name" then localeCompare (title a) (title b)
  else 0.

Definition sortEvents (sortKey : string) (l : list EventRecord) :=
  sortWith (compareEvents sortKey) l.

(** The four filters in the order of the effect. *)
Definition filterEvents (c : Criteria) (events : list EventRecord) :=
  priceFilter c (typeFilter c (categoryFilter c (searchFilter c events))).

(** The value the effect hands to [setFilteredEvents]. *)
Definition derive (events : list EventRecord) (c : Criteria) :=
  sortEvents (sortBy c) (filterEvents c events).
End Derive.

(** The four filter steps, to be applied in any order. *)
Inductive FilterStep := SearchStep | CategoryStep | TypeStep | PriceStep.

Section Steps.
Context `{JsHost}.

Definition applyStep (c : Criteria) (s : FilterStep) :
  list EventRecord -> list EventRecord :=
  match s with
  | SearchStep => searchFilter c
  | CategoryStep => categoryFilter c
  | TypeStep => typeFilter c
  | PriceStep => priceFilter c
  end.

Definition applySteps (c : Criteria) (order : list FilterStep)
  (events : list EventRecord) : list EventRecord :=
  fold_left (fun filtered s => applyStep c s filtered) order events.

(** What each step asks of a record, whatever the step's position. *)
Definition stepKeeps (c : Criteria) (s : FilterStep) (event : EventRecord) : bool :=
  match s with
  | SearchStep =>
      negb (truthy (searchQuery c)) ||
      matchesSearch (toLowerCase (searchQuery c)) event
  | CategoryStep =>
      negb (truthy (selectedCategory c)) ||
      String.eqb (category event) (selectedCategory c)
  | TypeStep =>
      if String.eqb (selectedType c) "online" then isOnline event
      else if String.eqb (selectedType c) "offline" then negb (isOnline event)
      else true
  | PriceStep => inPriceRange c event
  end.

(** The conjunction of the four steps. *)
Definition keepsAll (c : Criteria) (event : EventRecord) : bool :=
  forallb (fun s => stepKeeps c s event)
    [SearchStep; CategoryStep; TypeStep; PriceStep].
End Steps.

(** ** URL query parameters *)

(** A [URLSearchParams] object: an ordered list of name/value pairs. *)
Module URLSearchParams.
Definition t := list (string * string).

(** [new URLSearchParams()] *)
Definition empty : t := [].

(** [params.get(name)]: the first value under [name], [None] for null. *)
Fixpoint get (name : string) (params : t) : option string :=
  match params with
  | [] => None
  | (k, v) :: rest => if String.eqb k name then Some v else get name rest
  end.

(** [params.set(name, value)]: the first pair under [name] takes the
    value and the later ones go; without such a pair, one is appended. *)
Fixpoint set (name value : string) (params : t) : t :=
  match params with
  | [] => [(name, value)]
  | (k, v) :: rest =>
      if String.eqb k name then
        (name, value) :: filter (fun kv => negb (String.eqb (fst kv) name)) rest
      else (k, v) :: set name value rest
  end.

Definition has (name : string) (params : t) : bool :=
  match get name params with
  | Some _ => true
  | None => false
  end.
End URLSearchParams.

(** The parameters the URL effect hands to [setSearchParams]. *)
Definition urlParams (c : Criteria) : URLSearchParams.t :=
  let params := URLSearchParams.empty in
  let params :=
    if truthy (searchQuery c)
    then URLSearchParams.set "search" (searchQuery c) params else params in
  let params :=
    if truthy (selectedCategory c)
    then URLSearchParams.set "category" (selectedCategory c) params else params in
  params.

(** ** The state of EventsPage *)

Record PageState := {
  events : list EventRecord;
  filteredEvents : list EventRecord;
  loading : bool;
  criteria : Criteria;
  showFilters : bool;
  searchParams : URLSearchParams.t
}.

(** [searchParams.get(name) || ''] *)
Definition getOrEmpty (name : string) (params : URLSearchParams.t) : string :=
  match URLSearchParams.get name params with
  | Some v => v
  | None => ""
  end.

(** The initial values of the [useState] calls, for the URL the page is
    opened with. *)
Definition initialCriteria (params : URLSearchParams.t) : Criteria :=
  {| searchQuery := getOrEmpty "search" params;
     selectedCategory := getOrEmpty "category" params;
     selectedType := "";
     priceRange := (0, 1000);
     sortBy := "date" |}.

Definition initialState (params : URLSearchParams.t) : PageState :=
  {| events := [];
     filteredEvents := [];
     loading := true;
     criteria := initialCriteria params;
     showFilters := false;
     searchParams := params |}.

Definition withCriteria (st : PageState) (c : Criteria) : PageState :=
  {| events := events st;
     filteredEvents := filteredEvents st;
     loading := loading st;
     criteria := c;
     showFilters := showFilters st;
     searchParams := searchParams st |}.

Definition clearFilters (st : PageState) : PageState :=
  withCriteria st
    {| searchQuery := "";
       selectedCategory := "";
       selectedType := "";
       priceRange := (0, 1000);
       sortBy := "date" |}.

(** The state setters the page's handlers call.  [SetEvents] is the end of
    [loadEvents]: [setEvents(mockEvents); setLoading(false)]. *)
Inductive Action :=
| SetEvents (mockEvents : list EventRecord)
| SetSearchQuery (q : string)
| SetSelectedCategory (cat : string)
| SetSelectedType (ty : string)
| SetPriceRange (range : Z * Z)
| SetSortBy (key : string)
| SetShowFilters (b : bool)
| ClearFilters.

Definition update (a : Action) (st : PageState) : PageState :=
  let c := criteria st in
  match a with
  | SetEvents mockEvents =>
      {| events := mockEvents;
         filteredEvents := filteredEvents st;
         loading := false;
         criteria := c;
         showFilters := showFilters st;
         searchParams := searchParams st |}
  | SetSearchQuery q =>
      withCriteria st
        {| searchQuery := q; selectedCategory := selectedCategory c;
           selectedType := selectedType c; priceRange := priceRange c;
           sortBy := sortBy c |}
  | SetSelectedCategory cat =>
      withCriteria st
        {| searchQuery := searchQuery c; selectedCategory := cat;
           selectedType := selectedType c; priceRange := priceRange c;
           sortBy := sortBy c |}
  | SetSelectedType ty =>
      withCriteria st
        {| searchQuery := searchQuery c; selectedCategory := selectedCategory c;
           selectedType := ty; priceRange := priceRange c;
           sortBy := sortBy c |}
  | SetPriceRange range =>
      withCriteria st
        {| searchQuery := searchQuery c; selectedCategory := selectedCategory c;
           selectedType := selectedType c; priceRange := range;
           sortBy := sortBy c |}
  | SetSortBy key =>
      withCriteria st
        {| searchQuery := searchQuery c; selectedCategory := selectedCategory c;
           selectedType := selectedType c; priceRange := priceRange c;
           sortBy := key |}
  | SetShowFilters b =>
      {| events := events st;
         filteredEvents := filteredEvents st;
         loading := loading st;
         criteria := c;
         showFilters := b;
         searchParams := searchParams st |}
  | ClearFilters => clearFilters st
  end.

(** Which setters write a dependency of the filter effect
    ([events, searchQuery, selectedCategory, selectedType, priceRange,
    sortBy]) and of the URL effect ([searchQuery, selectedCategory]).  Both
    effects are functions of their dependencies, so a run after a setter
    that stored an equal value leaves the state as it was. *)
Definition writesFilterDeps (a : Action) : bool :=
  match a with
  | SetShowFilters _ => false
  | _ => true
  end.

Definition writesUrlDeps (a : Action) : bool :=
  match a with
  | SetSearchQuery _ | SetSelectedCategory _ | ClearFilters => true
  | _ => false
  end.

Section Effects.
Context `{JsHost}.

(** "Apply filters": [setFilteredEvents(filtered)]. *)
Definition filterEffect (st : PageState) : PageState :=
  {| events := events st;
     filteredEvents := derive (events st) (criteria st);
     loading := loading st;
     criteria := criteria st;
     showFilters := showFilters st;
     searchParams := searchParams st |}.

(** "Update URL params": [setSearchParams(params)]. *)
Definition urlEffect (st : PageState) : PageState :=
  {| events := events st;
     filteredEvents := filteredEvents st;
     loading := loading st;
     criteria := criteria st;
     showFilters := showFilters st;
     searchParams := urlParams (criteria st) |}.

(** The first render: every effect runs. *)
Definition mount (params : URLSearchParams.t) : PageState :=
  urlEffect (filterEffect (initialState params)).

(** A setter call followed by the effects whose dependencies it wrote. *)
Definition dispatch (a : Action) (st : PageState) : PageState :=
  let st1 := update a st in
  let st2 := if writesFilterDeps a then filterEffect st1 else st1 in
  if writesUrlDeps a then urlEffect st2 else st2.

Definition run (actions : list Action) (st : PageState) : PageState :=
  fold_left (fun s a => dispatch a s) actions st.
End Effects.

(** ** AuthModal: the login/signup mode selector *)

(** What the parent passes in; [onClose] is a callback of the parent. *)
Record ModalProps := {
  isOpen : bool;
  defaultModeProp : option string
}.

(** [defaultMode = 'login'] in the parameter list. *)
Definition defaultMode (p : ModalProps) : string :=
  match defaultModeProp p with
  | Some m => m
  | None => "login"
  end.

(** A mounted modal: the [mode] state and the props of the last render,
    which hold the dependencies the effect saw last. *)
Record ModalState := {
  mode : string;
  props : ModalProps
}.

Inductive ModalView := LoginView | SignupView.

(** [mode === 'login' ? <Login/> : <Signup/>] *)
Definition view (st : ModalState) : ModalView :=
  if String.eqb (mode st) "login" then LoginView else SignupView.

Definition switchToLogin (st : ModalState) : ModalState :=
  {| mode := "login"; props := props st |}.

Definition switchToSignup (st : ModalState) : ModalState :=
  {| mode := "signup"; props := props st |}.

Inductive ParentCall := OnClose.

(** [handleSuccess] only calls the parent's [onClose]. *)
Definition handleSuccess (st : ModalState) : ModalState * list ParentCall :=
  (st, [OnClose]).

(** The first variant of the file: with the effect
    [useEffect(() => setMode(defaultMode), [defaultMode, isOpen])]. *)
Module AuthModal.
Definition depsChanged (prev next : ModalProps) : bool :=
  negb (String.eqb (defaultMode prev) (defaultMode next)) ||
  negb (Bool.eqb (isOpen prev) (isOpen next)).

(** The effect body: [setMode(defaultMode)]. *)
Definition syncMode (p : ModalProps) (st : ModalState) : ModalState :=
  {| mode := defaultMode p; props := props st |}.

(** [useState(defaultMode)], then the effect of the first render. *)
Definition mount (p : ModalProps) : ModalState :=
  syncMode p {| mode := defaultMode p; props := p |}.

(** The parent renders the modal again with the props [p]; the effect
    runs when one of its dependencies differs from the last render. *)
Definition rerender (p : ModalProps) (st : ModalState) : ModalState :=
  let st' := {| mode := mode st; props := p |} in
  if depsChanged (props st) p then syncMode p st' else st'.
End AuthModal.

(** The second variant of the file: [useState(defaultMode)] alone. *)
Module AuthModalUnsynced.
Definition mount (p : ModalProps) : ModalState :=
  {| mode := defaultMode p; props := p |}.

Definition rerender (p : ModalProps) (st : ModalState) : ModalState :=
  {| mode := mode st; props := p |}.
End AuthModalUnsynced.

(** ** A host for ASCII text *)

(** On ASCII text [toLowerCase] maps A-Z to a-z and leaves the rest. *)
Definition asciiLower (a : ascii) : ascii :=
  let n := N_of_ascii a in
  if ((65 <=? n) && (n <=? 90))%N then ascii_of_N (n + 32) else a.

Fixpoint asciiToLowerCase (s : string) : string :=
  match s with
  | EmptyString => EmptyString
  | String a s' => String (asciiLower a) (asciiToLowerCase s')
  end.

(** Comparison by code units: a consistent comparator. *)
Definition codeUnitCompare (a b : string) : Z :=
  match String.compare a b with
  | Eq => 0
  | Lt => -1
  | Gt => 1
  end.

(** ** The example records of the specification *)

(** Fields the examples leave out are empty; the dates are the time values
    of 2024-05-01 and 2024-04-01 (UTC). *)
Definition jazzNight : EventRecord :=
  {| id := "1"; title := "Jazz Night"; description := ""; location := "";
     category := ""; date := 1714521600000; price := 20; isOnline := false;
     attendees := Some 50; tags := None |}.

Definition artExpo : EventRecord :=
  {| id := "2"; title := "Art Expo"; description := ""; location := "";
     category := ""; date := 1711929600000; price := 0; isOnline := false;
     attendees := Some 200; tags := None |}.

Definition exampleEvents : list EventRecord := [jazzNight; artExpo].

(** The criteria of a page opened without query parameters, with one
    field replaced. *)
Definition withSortKey (key : string) : Criteria :=
  {| searchQuery := ""; selectedCategory := ""; selectedType := "";
     priceRange := (0, 1000); sortBy := key |}.

Definition withTextQuery (q : string) : Criteria :=
  {| searchQuery := q; selectedCategory := ""; selectedType := "";
     priceRange := (0, 1000); sortBy := "date" |}.

(** ** The text filter in the words of the specification *)

(** [q] is a substring of [s]. *)
Definition isSubstringOf (q s : string) : Prop :=
  exists pre post, s = pre ++ q ++ post.

(** The lowercased query [q] is a substring of the lowercased title,
    description or location, or of some lowercased tag. *)
Definition textMatches `{JsHost} (q : string) (event : EventRecord) : Prop :=
  isSubstringOf q (toLowerCase (title event)) \/
  isSubstringOf q (toLowerCase (description event)) \/
  isSubstringOf q (toLowerCase (location event)) \/
  exists ts tag,
    tags event = Some ts /\ In tag ts /\ isSubstringOf q (toLowerCase tag).

(** ** What the page renders *)

(** The three branches of the events grid: the loading skeleton with its
    six placeholders, the "No events found" panel, or the results with
    the line "Showing [shown] of [total] events" and one card per
    record of [filteredEvents]. *)
Inductive PageView :=
| Skeleton (placeholders : nat)
| NoEventsFound
| Results (shown total : nat) (cards : list EventRecord).

Definition pageView (st : PageState) : PageView :=
  if loading st then Skeleton 6
  else if (List.length (filteredEvents st) =? 0)%nat then NoEventsFound
  else Results (List.length (filteredEvents st)) (List.length (events st))
         (filteredEvents st).

(** The price badge of a card: [event.price > 0 ? formatCurrency(event.price)
    : 'Free'].  [Some p] stands for the formatted price, [None] for 'Free'. *)
Definition priceBadge (event : EventRecord) : option Z :=
  if price event >? 0 then Some (price event) else None.

(** The target of "View Details": [`/events/${event.id}`]. *)
Definition detailsPath (event : EventRecord) : string :=
  "/events/" ++ id event.

(** ** The active-filter badges *)

Inductive Badge :=
| SearchBadge (text : string)
| CategoryBadge (text : string)
| TypeBadge (label : string).

(** The three conditional badges, in the order of the markup. *)
Definition badges (c : Criteria) : list Badge :=
  (if truthy (searchQuery c)
   then [SearchBadge ("Search: " ++ searchQuery c)] else []) ++
  (if truthy (selectedCategory c)
   then [CategoryBadge (selectedCategory c)] else []) ++
  (if truthy (selectedType c)
   then [TypeBadge (if String.eqb (selectedType c) "online"
                    then "Online" else "In-Person")]
   else []).

(** [(searchQuery || selectedCategory || selectedType) && <div>...</div>]:
    [None] when the bar is not rendered. *)
Definition activeFilters (c : Criteria) : option (list Badge) :=
  if truthy (searchQuery c) || truthy (selectedCategory c) || truthy (selectedType c)
  then Some (badges c) else None.

(** ** The handlers of the controls *)

(** The values of the options of the two [select] elements. *)
Definition sortOptions : list string :=
  ["date"; "price-low"; "price-high"; "popularity"; "name"].

Definition typeOptions : list string := [""; "online"; "offline"].

Inductive UiEvent :=
| TypeSearch (text : string)
| SubmitSearch
| ChooseSort (value : string)
| ChooseType (value : string)
| CheckAllCategories
| ToggleCategory (category : string)
| SlidePrice (range : Z * Z)
| RemoveSearchBadge
| RemoveCategoryBadge
| RemoveTypeBadge
| ClickClearFilters
| SheetOpenChange (open : bool)
| EventsLoaded (mockEvents : list EventRecord).

(** The setter each handler calls; [handleSearch] calls none. *)
Definition handler (ev : UiEvent) (st : PageState) : option Action :=
  match ev with
  | TypeSearch text => Some (SetSearchQuery text)
  | SubmitSearch => None
  | ChooseSort value => Some (SetSortBy value)
  | ChooseType value => Some (SetSelectedType value)
  | CheckAllCategories => Some (SetSelectedCategory "")
  | ToggleCategory category =>
      Some (SetSelectedCategory
              (if String.eqb (selectedCategory (criteria st)) category
               then "" else category))
  | SlidePrice range => Some (SetPriceRange range)
  | RemoveSearchBadge => Some (SetSearchQuery "")
  | RemoveCategoryBadge => Some (SetSelectedCategory "")
  | RemoveTypeBadge => Some (SetSelectedType "")
  | ClickClearFilters => Some ClearFilters
  | SheetOpenChange open => Some (SetShowFilters open)
  | EventsLoaded mockEvents => Some (SetEvents mockEvents)
  end.

Section Controls.
Context `{JsHost}.

(** Modelled from the spec: [EVENT_CATEGORIES] comes from lib/constants,
    which is not part of the sources at hand; the spec calls it a fixed
    enumerated set, so it is a list of names here. *)
Variable EVENT_CATEGORIES : list string.

(** The checkboxes of the category filter: "All Categories"
    ([checked={!selectedCategory}]) and then one per category
    ([checked={selectedCategory === category}]). *)
Definition categoryBoxes (c : Criteria) : list bool :=
  negb (truthy (selectedCategory c)) ::
  map (fun category => String.eqb (selectedCategory c) category) EVENT_CATEGORIES.

(** Whether the rendered page has the control that raises the event: a
    [select] reports one of its option values, there is a checkbox per
    category, and a badge has its cross only while the badge is there. *)
Definition offered (ev : UiEvent) (st : PageState) : bool :=
  match ev with
  | ChooseSort value => existsb (String.eqb value) sortOptions
  | ChooseType value => existsb (String.eqb value) typeOptions
  | ToggleCategory category => existsb (String.eqb category) EVENT_CATEGORIES
  | RemoveSearchBadge => truthy (searchQuery (criteria st))
  | RemoveCategoryBadge => truthy (selectedCategory (criteria st))
  | RemoveTypeBadge => truthy (selectedType (criteria st))
  | _ => true
  end.

Definition handle (ev : UiEvent) (st : PageState) : PageState :=
  match handler ev st with
  | Some a => dispatch a st
  | None => st
  end.

(** A session: the events in turn, [None] when one of them is raised by
    a control the page does not show at that point. *)
Fixpoint session (evs : list UiEvent) (st : PageState) : option PageState :=
  match evs with
  | [] => Some st
  | ev :: evs' =>
      if offered ev st then session evs' (handle ev st) else None
  end.
End Controls.

(** ** The events of a mounted modal *)

Inductive ModalEvent :=
| ParentRenders (p : ModalProps)
| ClickSwitchToLogin
| ClickSwitchToSignup
| AuthSucceeds.

(** One event, for the variant whose re-render is [rerender]. *)
Definition modalStep (rerender : ModalProps -> ModalState -> ModalState)
  (ev : ModalEvent) (st : ModalState) : ModalState :=
  match ev with
  | ParentRenders p => rerender p st
  | ClickSwitchToLogin => switchToLogin st
  | ClickSwitchToSignup => switchToSignup st
  | AuthSucceeds => fst (handleSuccess st)
  end.

Definition modalRun (rerender : ModalProps -> ModalState -> ModalState)
  (evs : list ModalEvent) (st : ModalState) : ModalState :=
  fold_left (fun s ev => modalStep rerender ev s) evs st.

(** ** The sort keys in the words of the specification *)

(** The attendee count of a record, a missing count being 0. *)
Definition attendeeCount (event : EventRecord) : Z :=
  match attendees event with
  | None => 0
  | Some n => n
  end.

(** [a] may stand before [b] in the order of the key: ascending date,
    ascending price, descending price, descending attendee count, the
    title order of the host; any other key orders nothing. *)
Definition keyNotAfter `{JsHost} (sortKey : string) (a b : EventRecord) : Prop :=
  if String.eqb sortKey "date" then date a <= date b
  else if String.eqb sortKey "price-low" then price a <= price b
  else if String.eqb sortKey "price-high" then price b <= price a
  else if String.eqb sortKey "popularity" then attendeeCount b <= attendeeCount a
  else if String.eqb sortKey "name" then localeCompare (title a) (title b) <= 0
  else True.

(** [a] and [b] have equal sort keys. *)
Definition keyEqual `{JsHost} (sortKey : string) (a b : EventRecord) : bool :=
  if String.eqb sortKey "date" then date a =? date b
  else if String.eqb sortKey "price-low" then price a =? price b
  else if String.eqb sortKey "price-high" then price a =? price b
  else if String.eqb sortKey "popularity" then attendeeCount a =? attendeeCount b
  else if String.eqb sortKey "name" then localeCompare (title a) (title b) =? 0
  else true.

(** The lexicographic order of strings over a comparison of letters: the
    first letters that differ decide, and a proper prefix comes first. *)
Fixpoint lexCompare (letterCompare : ascii -> ascii -> Z) (s t : string) : Z :=
  match s, t with
  | EmptyString, EmptyString => 0
  | EmptyString, String _ _ => -1
  | String _ _, EmptyString => 1
  | String a s', String b t' =>
      if letterCompare a b =? 0 then lexCompare letterCompare s' t'
      else letterCompare a b
  end.

(** Letters by code unit, and letters by code unit with the case folded. *)
Definition codeUnitOrder (a b : ascii) : Z :=
  Z.of_N (N_of_ascii a) - Z.of_N (N_of_ascii b).

Definition foldedOrder (a b : ascii) : Z :=
  codeUnitOrder (asciiLower a) (asciiLower b).

(** ** A host that collates ASCII text as a dictionary does *)

(** The collation of the browsers on ASCII letters: the lexicographic order
    with the case folded decides first ("apple" before "Banana"); titles
    that differ by case alone go lowercase first ("a" before "A"). *)
Definition collationCompare (s t : string) : Z :=
  if lexCompare foldedOrder s t =? 0 then lexCompare codeUnitOrder t s
  else lexCompare foldedOrder s t.

Definition titled (name : string) : EventRecord :=
  {| id := name; title := name; description := ""; location := "";
     category := ""; date := 0; price := 0; isOnline := false;
     attendees := None; tags := None |}.

Definition fruitEvents : list EventRecord :=
  [titled "cherry"; titled "Banana"; titled "apple"].

Definition attended (name : string) (count : option Z) : EventRecord :=
  {| id := name; title := name; description := ""; location := "";
     category := ""; date := 0; price := 0; isOnline := false;
     attendees := count; tags := None |}.

Definition attendedEvents : list EventRecord :=
  [attended "none" None; attended "zero" (Some 0);
   attended "two" (Some 2); attended "five" (Some 5)].

(** ** The renders React commits *)

Definition isSetEvents (a : Action) : bool :=
  match a with
  | SetEvents _ => true
  | _ => false
  end.

(** What every render shows: events that are loaded, and no more of them
    than are loaded. *)
Definition showsLoaded (st : PageState) : Prop :=
  (forall e, In e (filteredEvents st) -> In e (events st)) /\
  (List.length (filteredEvents st) <= List.length (events st))%nat.

Section Renders.
Context `{JsHost}.

(** A setter call renders the page with the new state, [filteredEvents]
    and the URL still being what the effects wrote last; then the effects
    whose dependencies it wrote run and, through [setFilteredEvents] and
    [setSearchParams], the page renders again. *)
Fixpoint committed (actions : list Action) (st : PageState) : list PageState :=
  match actions with
  | [] => []
  | a :: rest => update a st :: dispatch a st :: committed rest (dispatch a st)
  end.

(** Every render from the first one on, for the URL the page is opened
    with and the setter calls that follow. *)
Definition committedFrom (params : URLSearchParams.t) (actions : list Action) :
  list PageState :=
  initialState params :: mount params :: committed actions (mount params).
End Renders.

(** * Facts *)

(** ** Strings *)

Lemma truthy_false_iff (s : string) : truthy s = false <-> s = "".
Proof.
  unfold truthy. rewrite negb_false_iff. apply String.eqb_eq.
Qed.

Lemma truthy_true_iff (s : string) : truthy s = true <-> s <> "".
Proof.
  unfold truthy. rewrite negb_true_iff. apply String.eqb_neq.
Qed.

Lemma startsWith_spec (s q : string) :
  startsWith s q = true <-> exists post, s = q ++ post.
Proof.
  revert s. induction q as [|a q IH]; intros s; simpl.
  - split; [intros _; now exists s | reflexivity].
  - destruct s as [|b s].
    + split; [discriminate | intros [post E]; discriminate].
    + rewrite andb_true_iff, Ascii.eqb_eq, IH. split.
      * intros [-> [post ->]]. now exists post.
      * intros [post E]. injection E as -> ->. split; [reflexivity | now exists post].
Qed.

Lemma includes_spec (s q : string) :
  includes s q = true <-> exists pre post, s = pre ++ q ++ post.
Proof.
  induction s as [|b s IH].
  - simpl. rewrite orb_false_r, startsWith_spec. split.
    + intros [post E]. now exists "", post.
    + intros [pre [post E]]. destruct pre; [now exists post | discriminate].
  - cbn [includes]. rewrite orb_true_iff, IH, startsWith_spec. split.
    + intros [[post E] | [pre [post E]]].
      * now exists "", post.
      * exists (String b pre), post. simpl. now rewrite E.
    + intros [pre [post E]]. destruct pre as [|a pre].
      * left. now exists post.
      * right. simpl in E. injection E as _ E. now exists pre, post.
Qed.

Lemma includes_empty (s : string) : includes s "" = true.
Proof. apply includes_spec. now exists "", s. Qed.

(** ** The stable sort *)

Section SortFacts.
Context {A : Type} (compareFn : A -> A -> Z).

Local Abbreviation notAfter := (fun a b => compareFn a b <= 0).

Lemma insertSorted_perm (x : A) (l : list A) :
  Permutation (insertSorted compareFn x l) (x :: l).
Proof.
  induction l as [|y l IH]; simpl; [reflexivity|].
  destruct (compareFn x y <=? 0); [reflexivity|].
  rewrite IH. apply perm_swap.
Qed.

Lemma sortWith_perm (l : list A) : Permutation (sortWith compareFn l) l.
Proof.
  induction l as [|x l IH]; simpl; [reflexivity|].
  rewrite insertSorted_perm. now constructor.
Qed.

Lemma insertSorted_head (x : A) (l : list A) :
  (forall y, In y l -> compareFn x y <= 0) ->
  insertSorted compareFn x l = x :: l.
Proof.
  destruct l as [|y l]; simpl; [reflexivity|]. intros Hx.
  destruct (Z.leb_spec (compareFn x y) 0) as [_|Hgt]; [reflexivity|].
  specialize (Hx y (or_introl eq_refl)). lia.
Qed.

Lemma sortWith_sorted_id (l : list A) :
  StronglySorted notAfter l -> sortWith compareFn l = l.
Proof.
  induction 1 as [|x l Hs IH Hx]; simpl; [reflexivity|].
  rewrite IH. apply insertSorted_head. intros y Hy.
  rewrite Forall_forall in Hx. now apply Hx.
Qed.

(** A comparator that never orders two elements leaves the array as it is. *)
Lemma sortWith_no_order (l : list A) :
  (forall a b, compareFn a b = 0) -> sortWith compareFn l = l.
Proof.
  intros Hz. induction l as [|x l IH]; simpl; [reflexivity|].
  rewrite IH. apply insertSorted_head. intros y _. rewrite Hz. lia.
Qed.

Section WithConsistent.
Hypothesis Hc : Consistent compareFn.

Lemma Consistent_total (a b : A) : compareFn a b <= 0 \/ compareFn b a <= 0.
Proof.
  destruct Hc as [Hs _]. destruct (Z.leb_spec (compareFn a b) 0) as [|Hgt]; [now left|].
  right. apply Hs in Hgt. lia.
Qed.

Lemma Consistent_sym0 (a b : A) : compareFn a b = 0 -> compareFn b a = 0.
Proof.
  destruct Hc as [Hs _]. intros E.
  pose proof (Hs a b) as H1. pose proof (Hs b a) as H2. lia.
Qed.

Lemma Consistent_refl (a : A) : compareFn a a = 0.
Proof.
  destruct Hc as [Hs _]. pose proof (Hs a a). lia.
Qed.

Lemma insertSorted_sorted (x : A) (l : list A) :
  StronglySorted notAfter l ->
  StronglySorted notAfter (insertSorted compareFn x l).
Proof.
  induction 1 as [|y l Hs IH Hy]; simpl.
  - constructor; constructor.
  - destruct (Z.leb_spec (compareFn x y) 0) as [Hle|Hgt].
    + constructor; [now constructor|]. constructor; [exact Hle|].
      rewrite Forall_forall in *. intros z Hz.
      destruct Hc as [_ Ht]. apply (Ht x y z Hle). now apply Hy.
    + constructor; [exact IH|].
      rewrite Forall_forall in *. intros z Hz.
      apply (Permutation_in _ (insertSorted_perm x l)) in Hz.
      destruct Hz as [<-|Hz]; [|now apply Hy].
      destruct (Consistent_total y x); lia.
Qed.

Lemma sortWith_sorted (l : list A) :
  StronglySorted notAfter (sortWith compareFn l).
Proof.
  induction l as [|x l IH]; simpl; [constructor|].
  now apply insertSorted_sorted.
Qed.

Lemma insertSorted_filter (p : A -> bool) (x : A) (l : list A) :
  StronglySorted notAfter l ->
  filter p (insertSorted compareFn x l) =
  if p x then insertSorted compareFn x (filter p l) else filter p l.
Proof.
  induction 1 as [|y l Hs IH Hy]; simpl.
  - now destruct (p x).
  - destruct (Z.leb_spec (compareFn x y) 0) as [Hle|Hgt]; simpl.
    + destruct (p x) eqn:Px; [|reflexivity].
      destruct (p y) eqn:Py; simpl.
      * apply Z.leb_le in Hle. now rewrite Hle.
      * symmetry. apply insertSorted_head. intros z Hz.
        apply filter_In in Hz. destruct Hz as [Hz _].
        rewrite Forall_forall in Hy. destruct Hc as [_ Ht].
        apply (Ht x y z Hle). now apply Hy.
    + rewrite IH. destruct (p y) eqn:Py; simpl.
      * destruct (p x); [|reflexivity].
        destruct (Z.leb_spec (compareFn x y) 0); [lia | reflexivity].
      * reflexivity.
Qed.

(** Sorting and filtering commute. *)
Lemma sortWith_filter (p : A -> bool) (l : list A) :
  filter p (sortWith compareFn l) = sortWith compareFn (filter p l).
Proof.
  induction l as [|x l IH]; simpl; [reflexivity|].
  rewrite insertSorted_filter by apply sortWith_sorted.
  rewrite IH. now destruct (p x).
Qed.

Lemma sortWith_idempotent (l : list A) :
  sortWith compareFn (sortWith compareFn l) = sortWith compareFn l.
Proof. apply sortWith_sorted_id, sortWith_sorted. Qed.

(** Stability: the elements equal to [x] for the comparator keep the
    order they had in the input. *)
Lemma sortWith_stable (x : A) (l : list A) :
  filter (sameKey compareFn x) (sortWith compareFn l) =
  filter (sameKey compareFn x) l.
Proof.
  rewrite sortWith_filter. apply sortWith_sorted_id.
  assert (Hall : Forall (fun y => compareFn x y = 0) (filter (sameKey compareFn x) l)).
  { rewrite Forall_forall. intros y Hy. apply filter_In in Hy.
    destruct Hy as [_ Hy]. now apply Z.eqb_eq in Hy. }
  induction Hall as [|y l' Hy Hl' IH]; constructor; [exact IH|].
  rewrite Forall_forall in *. intros z Hz. destruct Hc as [_ Ht].
  apply (Ht y x z).
  - apply Consistent_sym0 in Hy. lia.
  - specialize (Hl' z Hz). lia.
Qed.
End WithConsistent.
End SortFacts.

(** The stable sort is determined by its specification: whatever algorithm
    the engine runs, a sorted arrangement that keeps equal elements in
    their input order is the one [sortWith] computes. *)
Section SortUnique.
Context {A : Type} (compareFn : A -> A -> Z).
Hypothesis Hc : Consistent compareFn.

Local Abbreviation notAfter := (fun a b => compareFn a b <= 0).

Lemma sameKey_refl (a : A) : sameKey compareFn a a = true.
Proof. unfold sameKey. rewrite (Consistent_refl _ Hc). reflexivity. Qed.

Lemma sameKey_sym (a b : A) : sameKey compareFn a b = sameKey compareFn b a.
Proof.
  unfold sameKey.
  destruct (Z.eqb_spec (compareFn a b) 0) as [E|E];
    destruct (Z.eqb_spec (compareFn b a) 0) as [E'|E']; try reflexivity.
  - apply (Consistent_sym0 _ Hc) in E. contradiction.
  - apply (Consistent_sym0 _ Hc) in E'. contradiction.
Qed.

Lemma filter_head_In (p : A -> bool) (a : A) (r l : list A) :
  a :: r = filter p l -> In a l.
Proof.
  intros E. assert (Hin : In a (filter p l)) by (rewrite <- E; now left).
  now apply filter_In in Hin.
Qed.

Lemma stable_sorted_unique (l1 : list A) : forall l2,
  StronglySorted notAfter l1 -> StronglySorted notAfter l2 ->
  (forall x, filter (sameKey compareFn x) l1 = filter (sameKey compareFn x) l2) ->
  l1 = l2.
Proof.
  induction l1 as [|a t1 IH]; intros [|b t2] S1 S2 Hf.
  - reflexivity.
  - specialize (Hf b). simpl in Hf. now rewrite sameKey_refl in Hf.
  - specialize (Hf a). simpl in Hf. now rewrite sameKey_refl in Hf.
  - inversion_clear S1 as [|? ? S1' F1]. inversion_clear S2 as [|? ? S2' F2].
    rewrite Forall_forall in F1, F2.
    assert (Eab : a = b).
    { pose proof (Hf a) as Ha. pose proof (Hf b) as Hb. simpl in Ha, Hb.
      rewrite sameKey_refl in Ha, Hb. rewrite (sameKey_sym b a) in Hb.
      destruct (sameKey compareFn a b) eqn:Kab.
      - now injection Ha.
      - apply filter_head_In, F2 in Ha.
        symmetry in Hb. apply filter_head_In, F1 in Hb.
        unfold sameKey in Kab. apply Z.eqb_neq in Kab.
        destruct Hc as [Hs _]. pose proof (Hs a b). lia. }
    subst b. f_equal. apply IH; try assumption.
    intros x. specialize (Hf x). simpl in Hf.
    destruct (sameKey compareFn x a); [now injection Hf | exact Hf].
Qed.

Lemma sortWith_unique (l sorted : list A) :
  StronglySorted notAfter sorted ->
  (forall x, filter (sameKey compareFn x) sorted = filter (sameKey compareFn x) l) ->
  sorted = sortWith compareFn l.
Proof.
  intros Hs Hst. apply stable_sorted_unique; [exact Hs | now apply sortWith_sorted |].
  intros x. rewrite Hst. symmetry. now apply sortWith_stable.
Qed.
End SortUnique.

(** ** The comparator of the page *)

Section CompareFacts.
Context `{JsHost}.

Lemma compareEvents_consistent (sortKey : string) :
  Consistent (compareEvents sortKey).
Proof.
  unfold Consistent, compareEvents.
  destruct (String.eqb sortKey "date"); [split; intros; lia|].
  destruct (String.eqb sortKey "price-low"); [split; intros; lia|].
  destruct (String.eqb sortKey "price-high"); [split; intros; lia|].
  destruct (String.eqb sortKey "popularity"); [split; intros; lia|].
  destruct (String.eqb sortKey "name"); [|split; intros; lia].
  split; intros.
  - apply localeCompare_antisym.
  - eapply localeCompare_trans; eassumption.
Qed.

Lemma sortEvents_perm (sortKey : string) (l : list EventRecord) :
  Permutation (sortEvents sortKey l) l.
Proof. apply sortWith_perm. Qed.

Lemma sortEvents_filter (sortKey : string) (p : EventRecord -> bool)
  (l : list EventRecord) :
  filter p (sortEvents sortKey l) = sortEvents sortKey (filter p l).
Proof. apply sortWith_filter, compareEvents_consistent. Qed.
End CompareFacts.

(** ** The ASCII host is a host *)

Lemma ascii_compare_trans (a b c : ascii) (o : comparison) :
  Ascii.compare a b = o -> Ascii.compare b c = o -> Ascii.compare a c = o.
Proof.
  unfold Ascii.compare. destruct o; intros H1 H2.
  - apply N.compare_eq_iff in H1, H2. apply N.compare_eq_iff. congruence.
  - rewrite N.compare_lt_iff in *. lia.
  - rewrite N.compare_gt_iff in *. lia.
Qed.

Lemma string_compare_refl (s : string) : String.compare s s = Eq.
Proof.
  induction s as [|a s IH]; simpl; [reflexivity|].
  unfold Ascii.compare. now rewrite N.compare_refl.
Qed.

Lemma string_compare_lt_trans (s1 : string) : forall s2 s3,
  String.compare s1 s2 = Lt -> String.compare s2 s3 = Lt ->
  String.compare s1 s3 = Lt.
Proof.
  induction s1 as [|a s1 IH]; intros [|b s2] [|c s3]; simpl; try congruence.
  destruct (Ascii.compare a b) eqn:Eab; try discriminate;
    destruct (Ascii.compare b c) eqn:Ebc; try discriminate; intros H1 H2.
  - rewrite (ascii_compare_trans a b c Eq Eab Ebc). now apply (IH s2).
  - apply Ascii.compare_eq_iff in Eab. subst b. now rewrite Ebc.
  - apply Ascii.compare_eq_iff in Ebc. subst c. now rewrite Eab.
  - now rewrite (ascii_compare_trans a b c Lt Eab Ebc).
Qed.

Lemma codeUnitCompare_antisym (a b : string) :
  codeUnitCompare a b < 0 <-> 0 < codeUnitCompare b a.
Proof.
  unfold codeUnitCompare. rewrite (String.compare_antisym a b).
  destruct (String.compare b a); simpl; lia.
Qed.

Lemma codeUnitCompare_trans (a b c : string) :
  codeUnitCompare a b <= 0 -> codeUnitCompare b c <= 0 ->
  codeUnitCompare a c <= 0.
Proof.
  unfold codeUnitCompare.
  destruct (String.compare a b) eqn:Eab; [|  |lia];
    destruct (String.compare b c) eqn:Ebc; try lia; intros _ _.
  - apply String.compare_eq_iff in Eab, Ebc. subst. rewrite string_compare_refl. lia.
  - apply String.compare_eq_iff in Eab. subst. rewrite Ebc. lia.
  - apply String.compare_eq_iff in Ebc. subst. rewrite Eab. lia.
  - rewrite (string_compare_lt_trans a b c Eab Ebc). lia.
Qed.

Definition AsciiHost : JsHost := {|
  toLowerCase := asciiToLowerCase;
  localeCompare := codeUnitCompare;
  localeCompare_antisym := codeUnitCompare_antisym;
  localeCompare_trans := codeUnitCompare_trans
|}.

(** ** The filters *)

Lemma filter_all {A : Type} (p : A -> bool) (l : list A) :
  (forall x, In x l -> p x = true) -> filter p l = l.
Proof.
  induction l as [|x l IH]; simpl; intros Hp; [reflexivity|].
  rewrite (Hp x (or_introl eq_refl)). f_equal. apply IH. intros y Hy.
  apply Hp. now right.
Qed.

Lemma filter_twice {A : Type} (p q : A -> bool) (l : list A) :
  filter q (filter p l) = filter (fun x => p x && q x) l.
Proof.
  induction l as [|x l IH]; simpl; [reflexivity|].
  destruct (p x); simpl; [destruct (q x)|]; now rewrite IH.
Qed.

Section FilterFacts.
Context `{JsHost}.

Lemma matchesSearch_spec (q : string) (e : EventRecord) :
  matchesSearch q e = true <-> textMatches q e.
Proof.
  unfold matchesSearch, textMatches, isSubstringOf.
  rewrite !orb_true_iff, !includes_spec.
  assert (Htags :
    match tags e with
    | Some ts => existsb (fun tag => includes (toLowerCase tag) q) ts
    | None => false
    end = true <->
    exists ts tag, tags e = Some ts /\ In tag ts /\
      exists pre post, toLowerCase tag = pre ++ q ++ post).
  { destruct (tags e) as [ts|].
    - rewrite existsb_exists. split.
      + intros [tag [Hin Hi]]. apply includes_spec in Hi. now exists ts, tag.
      + intros [ts' [tag [E [Hin Hi]]]]. injection E as <-.
        exists tag. split; [exact Hin | now apply includes_spec].
    - split; [discriminate | intros [ts [tag [E _]]]; discriminate]. }
  rewrite Htags. tauto.
Qed.

(** Every step is a [filter] by a predicate on single records. *)
Lemma applyStep_filter (c : Criteria) (s : FilterStep) (l : list EventRecord) :
  applyStep c s l = filter (stepKeeps c s) l.
Proof.
  destruct s; unfold stepKeeps; cbn [applyStep].
  - unfold searchFilter. destruct (truthy (searchQuery c)); simpl; [reflexivity|].
    symmetry. now apply filter_all.
  - unfold categoryFilter. destruct (truthy (selectedCategory c)); simpl; [reflexivity|].
    symmetry. now apply filter_all.
  - unfold typeFilter. destruct (truthy (selectedType c)) eqn:T.
    + destruct (String.eqb (selectedType c) "online"); [reflexivity|].
      destruct (String.eqb (selectedType c) "offline"); [reflexivity|].
      symmetry. now apply filter_all.
    + apply truthy_false_iff in T. rewrite T. simpl.
      symmetry. now apply filter_all.
  - reflexivity.
Qed.

Lemma applySteps_filter (c : Criteria) (order : list FilterStep) :
  forall l,
    applySteps c order l =
    filter (fun e => forallb (fun s => stepKeeps c s e) order) l.
Proof.
  unfold applySteps. induction order as [|s order IH]; intros l; simpl.
  - symmetry. now apply filter_all.
  - rewrite IH, applyStep_filter. apply filter_twice.
Qed.

Lemma filterEvents_filter (c : Criteria) (l : list EventRecord) :
  filterEvents c l = filter (keepsAll c) l.
Proof.
  change (filterEvents c l)
    with (applySteps c [SearchStep; CategoryStep; TypeStep; PriceStep] l).
  apply applySteps_filter.
Qed.

Lemma derive_In (events : list EventRecord) (c : Criteria) (e : EventRecord) :
  In e (derive events c) <-> In e events /\ keepsAll c e = true.
Proof.
  unfold derive. rewrite filterEvents_filter, <- filter_In. split.
  - apply Permutation_in, sortEvents_perm.
  - apply Permutation_in. symmetry. apply sortEvents_perm.
Qed.

Lemma inPriceRange_spec (c : Criteria) (e : EventRecord) :
  inPriceRange c e = true <->
  fst (priceRange c) <= price e <= snd (priceRange c).
Proof.
  unfold inPriceRange. rewrite andb_true_iff, Z.geb_le, Z.leb_le. lia.
Qed.

Lemma keepsAll_inPriceRange (c : Criteria) (e : EventRecord) :
  keepsAll c e = true -> inPriceRange c e = true.
Proof.
  unfold keepsAll. simpl. rewrite !andb_true_iff. tauto.
Qed.
End FilterFacts.

(** * The claims *)

(** C2.  The text filter keeps a record iff the query is empty or the
    lowercased query is a substring of the lowercased title, description,
    location or of some tag; the kept records stay in their order.  With
    the query "jazz" the two example events give [Jazz Night] alone. *)
Theorem searchFilter_keeps :
  (forall (H : JsHost) (events : list EventRecord) (c : Criteria),
     exists keep : EventRecord -> bool,
       searchFilter c events = filter keep events /\
       forall e, keep e = true <->
         searchQuery c = "" \/ textMatches (toLowerCase (searchQuery c)) e) /\
  derive (H := AsciiHost) exampleEvents (withTextQuery "jazz") = [jazzNight].
Proof.
  split; [|reflexivity].
  intros H events c. exists (stepKeeps c SearchStep). split.
  - apply (applyStep_filter c SearchStep).
  - intros e. cbn [stepKeeps].
    rewrite orb_true_iff, negb_true_iff, truthy_false_iff, matchesSearch_spec.
    reflexivity.
Qed.

(** C4.  A record passes the price filter iff [min <= price <= max]; a
    record priced exactly [min] or exactly [max] of a range with
    [min <= max] is included. *)
Theorem priceFilter_inclusive (events : list EventRecord) (c : Criteria)
  (e : EventRecord) :
  (inPriceRange c e = true <->
     fst (priceRange c) <= price e <= snd (priceRange c)) /\
  (In e (priceFilter c events) <->
     In e events /\ fst (priceRange c) <= price e <= snd (priceRange c)) /\
  (fst (priceRange c) <= snd (priceRange c) ->
   In e events ->
   price e = fst (priceRange c) \/ price e = snd (priceRange c) ->
   In e (priceFilter c events)).
Proof.
  pose proof (inPriceRange_spec c e) as Hs.
  split; [exact Hs|]. split.
  - unfold priceFilter. rewrite filter_In, Hs. reflexivity.
  - intros Hle Hin Hb. unfold priceFilter. apply filter_In.
    split; [exact Hin|]. apply Hs. lia.
Qed.

Lemma priceFilter_inclusive_witness :
  In artExpo (priceFilter (withSortKey "date") exampleEvents) /\
  In artExpo
    (priceFilter
       {| searchQuery := ""; selectedCategory := ""; selectedType := "";
          priceRange := (-10, 0); sortBy := "date" |} exampleEvents).
Proof.
  split.
  - apply (proj2 (proj2 (priceFilter_inclusive exampleEvents (withSortKey "date") artExpo))).
    + simpl. lia.
    + simpl. auto.
    + left. reflexivity.
  - apply (proj2 (proj2 (priceFilter_inclusive exampleEvents
             {| searchQuery := ""; selectedCategory := ""; selectedType := "";
                priceRange := (-10, 0); sortBy := "date" |} artExpo))).
    + simpl. lia.
    + simpl. auto.
    + right. reflexivity.
Defined.

(** C5.  The four filter steps applied in any order give what the
    pipeline's fixed order gives (the same records, in the same sequence). *)
Theorem filters_commute `{JsHost} (c : Criteria) (order : list FilterStep)
  (events : list EventRecord) :
  Permutation order [SearchStep; CategoryStep; TypeStep; PriceStep] ->
  applySteps c order events = filterEvents c events.
Proof.
  intros Hp. rewrite filterEvents_filter, applySteps_filter.
  apply filter_ext. intros e. unfold keepsAll.
  apply eq_true_iff_eq. rewrite !forallb_forall. split; intros Hall s Hs.
  - apply Hall. apply (Permutation_in s (Permutation_sym Hp) Hs).
  - apply Hall. apply (Permutation_in s Hp Hs).
Qed.

Lemma filters_commute_witness :
  applySteps (H := AsciiHost) (withTextQuery "art")
    [PriceStep; TypeStep; CategoryStep; SearchStep] exampleEvents =
  filterEvents (H := AsciiHost) (withTextQuery "art") exampleEvents.
Proof.
  apply (filters_commute (H := AsciiHost)).
  change [PriceStep; TypeStep; CategoryStep; SearchStep]
    with (rev [SearchStep; CategoryStep; TypeStep; PriceStep]).
  apply Permutation_sym, Permutation_rev.
Defined.

(** C6.  [derive] is idempotent: deriving again from the derived sequence
    with the same criteria gives the same sequence, order included. *)
Theorem derive_idempotent `{JsHost} (events : list EventRecord) (c : Criteria) :
  derive (derive events c) c = derive events c.
Proof.
  unfold derive. rewrite !filterEvents_filter.
  rewrite sortEvents_filter, filter_twice.
  rewrite (filter_ext _ (keepsAll c)) by (intros e; apply andb_diag).
  apply sortWith_idempotent, compareEvents_consistent.
Qed.

(** ** Sorting by each key *)

Lemma StronglySorted_impl {A : Type} (R R' : A -> A -> Prop) (l : list A) :
  (forall a b, R a b -> R' a b) -> StronglySorted R l -> StronglySorted R' l.
Proof.
  intros HR. induction 1 as [|x l Hs IH Hx]; constructor; [exact IH|].
  rewrite Forall_forall in *. intros y Hy. apply HR. now apply Hx.
Qed.

(** Stability for a class of records the comparator holds equal. *)
Lemma sortWith_stable_class {A : Type} (compareFn : A -> A -> Z)
  (p : A -> bool) (l : list A) :
  Consistent compareFn ->
  (forall a b, p a = true -> p b = true -> compareFn a b = 0) ->
  filter p (sortWith compareFn l) = filter p l.
Proof.
  intros Hc Hp. rewrite (sortWith_filter _ Hc). apply sortWith_sorted_id.
  assert (Hall : Forall (fun y => p y = true) (filter p l)).
  { rewrite Forall_forall. intros y Hy. now apply filter_In in Hy. }
  induction Hall as [|y l' Hy Hl' IH]; constructor; [exact IH|].
  rewrite Forall_forall in *. intros z Hz. rewrite (Hp y z Hy (Hl' z Hz)). lia.
Qed.

Section SortKeys.
Context `{JsHost}.

Lemma sortEvents_sorted (sortKey : string) (l : list EventRecord) :
  StronglySorted (fun a b => compareEvents sortKey a b <= 0) (sortEvents sortKey l).
Proof. apply sortWith_sorted, compareEvents_consistent. Qed.

Lemma sortEvents_stable_class (sortKey : string) (p : EventRecord -> bool)
  (l : list EventRecord) :
  (forall a b, p a = true -> p b = true -> compareEvents sortKey a b = 0) ->
  filter p (sortEvents sortKey l) = filter p l.
Proof. apply sortWith_stable_class, compareEvents_consistent. Qed.

Lemma localeCompare_class (t : string) (a b : string) :
  localeCompare t a = 0 -> localeCompare t b = 0 -> localeCompare a b = 0.
Proof.
  intros Ha Hb.
  pose proof (localeCompare_antisym t a). pose proof (localeCompare_antisym a t).
  pose proof (localeCompare_antisym t b). pose proof (localeCompare_antisym b t).
  pose proof (localeCompare_antisym a b). pose proof (localeCompare_antisym b a).
  assert (localeCompare a b <= 0) by (apply (localeCompare_trans a t b); lia).
  assert (localeCompare b a <= 0) by (apply (localeCompare_trans b t a); lia).
  lia.
Qed.
End SortKeys.

(** [compareEvents] at a literal key is the branch of that key. *)
Ltac change_key :=
  match goal with
  | |- context [compareEvents ?key ?a ?b] =>
      let v := eval cbv [compareEvents] in (compareEvents key a b) in
      let v' := eval simpl in v in
      change (compareEvents key a b) with v'
  end.

Ltac by_key Hab :=
  match type of Hab with
  | context [compareEvents ?key ?a ?b] =>
      let v := eval cbv [compareEvents] in (compareEvents key a b) in
      let v' := eval simpl in v in
      change (compareEvents key a b) with v' in Hab; lia
  end.

(** ** The URL effect and the page state *)

Lemma urlParams_search (c : Criteria) :
  URLSearchParams.get "search" (urlParams c) =
  if truthy (searchQuery c) then Some (searchQuery c) else None.
Proof.
  unfold urlParams.
  destruct (truthy (searchQuery c)); destruct (truthy (selectedCategory c));
    reflexivity.
Qed.

Lemma urlParams_category (c : Criteria) :
  URLSearchParams.get "category" (urlParams c) =
  if truthy (selectedCategory c) then Some (selectedCategory c) else None.
Proof.
  unfold urlParams.
  destruct (truthy (searchQuery c)); destruct (truthy (selectedCategory c));
    reflexivity.
Qed.

(** The URL effect writes no parameter besides the two. *)
Lemma urlParams_other (c : Criteria) (name : string) :
  name <> "search" -> name <> "category" ->
  URLSearchParams.get name (urlParams c) = None.
Proof.
  intros Hs Hc. apply not_eq_sym, String.eqb_neq in Hs, Hc. unfold urlParams.
  destruct (truthy (searchQuery c)); destruct (truthy (selectedCategory c));
    cbn -[String.eqb]; try change ("search" =? "category")%string with false;
    cbn -[String.eqb]; now rewrite ?Hs, ?Hc.
Qed.

Section PageFacts.
Context `{JsHost}.

Lemma dispatch_criteria (a : Action) (st : PageState) :
  criteria (dispatch a st) = criteria (update a st).
Proof.
  unfold dispatch. destruct (writesFilterDeps a); destruct (writesUrlDeps a);
    reflexivity.
Qed.

Lemma dispatch_events (a : Action) (st : PageState) :
  events (dispatch a st) = events (update a st).
Proof.
  unfold dispatch. destruct (writesFilterDeps a); destruct (writesUrlDeps a);
    reflexivity.
Qed.

(** In every state the page reaches, the URL parameters are the
    projection of the criteria. *)
Lemma run_searchParams (actions : list Action) : forall st,
  searchParams st = urlParams (criteria st) ->
  searchParams (run actions st) = urlParams (criteria (run actions st)).
Proof.
  unfold run. induction actions as [|a actions IH]; intros st Hst; simpl.
  - exact Hst.
  - apply IH. destruct a; simpl; try reflexivity; exact Hst.
Qed.

(** In every state the page reaches, the list on display is the one
    derived from the events and the criteria. *)
Lemma run_filteredEvents (actions : list Action) : forall st,
  filteredEvents st = derive (events st) (criteria st) ->
  filteredEvents (run actions st) =
  derive (events (run actions st)) (criteria (run actions st)).
Proof.
  unfold run. induction actions as [|a actions IH]; intros st Hst; simpl.
  - exact Hst.
  - apply IH. destruct a; simpl; try reflexivity; exact Hst.
Qed.
End PageFacts.

(** C9.  When a setter changes the text query or the category, the URL
    parameters are rebuilt from the criteria: [search] is there, with the
    query as its value, iff the query is not empty, and [category] is
    there, with the category as its value, iff the category is not empty. *)
Theorem url_params_follow_criteria `{JsHost} (a : Action) (st : PageState) :
  searchQuery (criteria (update a st)) <> searchQuery (criteria st) \/
  selectedCategory (criteria (update a st)) <> selectedCategory (criteria st) ->
  let st' := dispatch a st in
  let c := criteria st' in
  searchParams st' = urlParams c /\
  (searchQuery c <> "" ->
     URLSearchParams.get "search" (searchParams st') = Some (searchQuery c)) /\
  (searchQuery c = "" ->
     URLSearchParams.get "search" (searchParams st') = None) /\
  (selectedCategory c <> "" ->
     URLSearchParams.get "category" (searchParams st') = Some (selectedCategory c)) /\
  (selectedCategory c = "" ->
     URLSearchParams.get "category" (searchParams st') = None).
Proof.
  intros Hch st' c.
  assert (E : searchParams st' = urlParams c).
  { subst st' c. destruct a; simpl in Hch; try (exfalso; tauto); reflexivity. }
  split; [exact E|]. rewrite E, urlParams_search, urlParams_category.
  repeat split; intros Hq.
  - apply truthy_true_iff in Hq. now rewrite Hq.
  - apply truthy_false_iff in Hq. now rewrite Hq.
  - apply truthy_true_iff in Hq. now rewrite Hq.
  - apply truthy_false_iff in Hq. now rewrite Hq.
Qed.

Lemma url_params_follow_criteria_witness :
  URLSearchParams.get "search"
    (searchParams
       (dispatch (H := AsciiHost) (SetSearchQuery "jazz")
          (mount (H := AsciiHost) URLSearchParams.empty))) = Some "jazz" /\
  URLSearchParams.get "category"
    (searchParams
       (dispatch (H := AsciiHost) (SetSearchQuery "jazz")
          (mount (H := AsciiHost) URLSearchParams.empty))) = None.
Proof.
  pose proof (url_params_follow_criteria (H := AsciiHost) (SetSearchQuery "jazz")
                (mount (H := AsciiHost) URLSearchParams.empty)) as W.
  simpl in W. destruct W as [_ [Hs [_ [_ Hc]]]].
  - left. discriminate.
  - split; [apply Hs; discriminate | apply Hc; reflexivity].
Defined.

(** C10.  The price range of a freshly opened page, and the one
    [clearFilters] restores, is [0, 1000]; so once the events are loaded
    into a fresh page, and after clearing the filters, no event priced
    above 1000 is on display. *)
Theorem default_price_range_excludes `{JsHost} :
  (forall params, priceRange (initialCriteria params) = (0, 1000)) /\
  (forall st, priceRange (criteria (clearFilters st)) = (0, 1000)) /\
  (forall params mockEvents e,
     1000 < price e ->
     ~ In e (derive mockEvents (initialCriteria params)) /\
     ~ In e (filteredEvents (dispatch (SetEvents mockEvents) (mount params)))) /\
  (forall st e,
     1000 < price e ->
     ~ In e (derive (events st) (criteria (clearFilters st))) /\
     ~ In e (filteredEvents (dispatch ClearFilters st))).
Proof.
  assert (Hex : forall l c e, priceRange c = (0, 1000) -> 1000 < price e ->
                              ~ In e (derive l c)).
  { intros l c e Hr He Hin. apply derive_In in Hin. destruct Hin as [_ Hk].
    apply keepsAll_inPriceRange, inPriceRange_spec in Hk. rewrite Hr in Hk.
    simpl in Hk. lia. }
  split; [reflexivity|]. split; [reflexivity|]. split.
  - intros params mockEvents e He. split; now apply Hex.
  - intros st e He. split; now apply Hex.
Qed.

Lemma default_price_range_excludes_witness :
  ~ In {| id := "3"; title := "Gala"; description := ""; location := "";
          category := ""; date := 0; price := 1500; isOnline := false;
          attendees := None; tags := None |}
       (filteredEvents
          (dispatch (H := AsciiHost) ClearFilters
             (dispatch (H := AsciiHost)
                (SetEvents
                   [{| id := "3"; title := "Gala"; description := ""; location := "";
                       category := ""; date := 0; price := 1500; isOnline := false;
                       attendees := None; tags := None |}])
                (mount (H := AsciiHost) URLSearchParams.empty)))).
Proof.
  apply (proj2 (proj2 (proj2 (default_price_range_excludes (H := AsciiHost))))).
  simpl. lia.
Defined.

(** C8.  A type that is neither "online" nor "offline" filters nothing, a
    sort key that is none of the five reorders nothing, and [derive]
    returns a sequence in every case; from no events it returns none. *)
Theorem unrecognized_criteria_apply_nothing `{JsHost}
  (events : list EventRecord) (c : Criteria) :
  (selectedType c <> "online" -> selectedType c <> "offline" ->
     typeFilter c events = events) /\
  (~ In (sortBy c) ["date"; "price-low"; "price-high"; "popularity"; "name"] ->
     derive events c = filterEvents c events) /\
  (exists result, derive events c = result /\
     forall e, In e result -> In e events) /\
  derive [] c = [].
Proof.
  split; [|split; [|split]].
  - intros Hon Hoff. apply String.eqb_neq in Hon, Hoff.
    unfold typeFilter. rewrite Hon, Hoff. now destruct (truthy (selectedType c)).
  - intros Hkey. unfold derive, sortEvents. apply sortWith_no_order.
    intros a b. unfold compareEvents.
    repeat match goal with
    | |- context [String.eqb (sortBy c) ?k] =>
        destruct (String.eqb_spec (sortBy c) k) as [E|_];
        [exfalso; apply Hkey; rewrite E; simpl; tauto|]
    end.
    reflexivity.
  - exists (derive events c). split; [reflexivity|]. intros e He.
    now apply derive_In in He.
  - unfold derive. rewrite filterEvents_filter. reflexivity.
Qed.

Lemma unrecognized_criteria_apply_nothing_witness :
  typeFilter
    {| searchQuery := ""; selectedCategory := ""; selectedType := "hybrid";
       priceRange := (0, 1000); sortBy := "rating" |} exampleEvents = exampleEvents /\
  derive (H := AsciiHost) exampleEvents
    {| searchQuery := ""; selectedCategory := ""; selectedType := "hybrid";
       priceRange := (0, 1000); sortBy := "rating" |} = exampleEvents.
Proof.
  pose proof (unrecognized_criteria_apply_nothing (H := AsciiHost) exampleEvents
                {| searchQuery := ""; selectedCategory := ""; selectedType := "hybrid";
                   priceRange := (0, 1000); sortBy := "rating" |}) as W.
  destruct W as [Hty [Hsort _]]. split.
  - apply Hty; discriminate.
  - rewrite Hsort; [reflexivity|].
    simpl. intros [E|[E|[E|[E|[E|[]]]]]]; discriminate E.
Defined.

(** ** AuthModal *)

(** The variant with the effect takes the new default whenever the parent
    passes a different one, the modal being visible or not. *)
Lemma AuthModal_rerender_syncs (p : ModalProps) (st : ModalState) :
  defaultMode p <> defaultMode (props st) ->
  mode (AuthModal.rerender p st) = defaultMode p.
Proof.
  intros Hd. unfold AuthModal.rerender, AuthModal.depsChanged.
  apply not_eq_sym, String.eqb_neq in Hd. rewrite Hd. reflexivity.
Qed.

(** The variant without the effect never reads the prop again. *)
Lemma AuthModalUnsynced_rerender_mode (p : ModalProps) (st : ModalState) :
  mode (AuthModalUnsynced.rerender p st) = mode st.
Proof. reflexivity. Qed.

(** C7, on the variant without the effect: the modal is mounted visible
    with the default "login"; the parent then passes the default "signup"
    while the modal is still visible, and the mode stays "login". *)
Theorem AuthModalUnsynced_ignores_new_default :
  let shown := {| isOpen := true; defaultModeProp := Some "login" |} in
  let changed := {| isOpen := true; defaultModeProp := Some "signup" |} in
  let st := AuthModalUnsynced.rerender changed (AuthModalUnsynced.mount shown) in
  mode st = "login" /\ defaultMode (props st) = "signup" /\
  mode st <> defaultMode (props st) /\
  mode (AuthModal.rerender changed (AuthModal.mount shown)) = "signup".
Proof.
  simpl. repeat split. discriminate.
Qed.

(** * Further properties of the page *)

(** ** Lists and strings *)

Lemma filter_none {A : Type} (p : A -> bool) (l : list A) :
  (forall x, In x l -> p x = false) -> filter p l = [].
Proof.
  induction l as [|x l IH]; simpl; intros Hp; [reflexivity|].
  rewrite (Hp x (or_introl eq_refl)). apply IH. intros y Hy. apply Hp. now right.
Qed.

Lemma filter_split_perm {A : Type} (p q : A -> bool) (l : list A) :
  Permutation (filter (fun x => p x && q x) l ++ filter (fun x => p x && negb (q x)) l)
    (filter p l).
Proof.
  induction l as [|x l IH]; simpl; [constructor|].
  destruct (p x); simpl; [|exact IH]. destruct (q x); simpl.
  - now constructor.
  - symmetry. apply Permutation_cons_app. now symmetry.
Qed.

Lemma distinct_images_filter {A B : Type} (key : A -> B) (keep : A -> bool) :
  forall l : list A, NoDup (map key l) -> NoDup (map key (filter keep l)).
Proof.
  intros l. induction l as [|x l IH]; simpl; intros Hn; [constructor|].
  inversion_clear Hn as [|? ? Hx Hl]. destruct (keep x); simpl; [|now apply IH].
  constructor; [|now apply IH]. intros Hin. apply Hx.
  apply in_map_iff in Hin. destruct Hin as [y [Ey Hy]].
  apply filter_In in Hy. apply in_map_iff. exists y. tauto.
Qed.

Lemma string_app_nil_r (s : string) : (s ++ "")%string = s.
Proof. induction s as [|a s IH]; simpl; [reflexivity | now rewrite IH]. Qed.

Lemma string_app_assoc (s t u : string) :
  ((s ++ t) ++ u)%string = (s ++ t ++ u)%string.
Proof. induction s as [|a s IH]; simpl; [reflexivity | now rewrite IH]. Qed.

Lemma string_app_inv_head (s t u : string) :
  (s ++ t)%string = (s ++ u)%string -> t = u.
Proof.
  induction s as [|a s IH]; simpl; intros E; [exact E|].
  injection E as E. now apply IH.
Qed.

Lemma isSubstringOf_refl (s : string) : isSubstringOf s s.
Proof. exists "", "". simpl. now rewrite string_app_nil_r. Qed.

Lemma isSubstringOf_trans (q r s : string) :
  isSubstringOf q r -> isSubstringOf r s -> isSubstringOf q s.
Proof.
  intros [pre [post ->]] [pre' [post' ->]].
  exists (pre' ++ pre)%string, (post ++ post')%string.
  now rewrite !string_app_assoc.
Qed.

(** ** The derived list *)

Section DeriveFacts.
Context `{JsHost}.

Lemma derive_perm (events : list EventRecord) (c : Criteria) :
  Permutation (derive events c) (filter (keepsAll c) events).
Proof.
  unfold derive. rewrite filterEvents_filter. apply sortEvents_perm.
Qed.

Lemma derive_length (events : list EventRecord) (c : Criteria) :
  (List.length (derive events c) <= List.length events)%nat.
Proof.
  rewrite (Permutation_length (derive_perm events c)). apply filter_length_le.
Qed.

Lemma keepsAll_split (c : Criteria) (e : EventRecord) :
  keepsAll c e =
  stepKeeps c SearchStep e && stepKeeps c CategoryStep e &&
  stepKeeps c TypeStep e && inPriceRange c e.
Proof.
  unfold keepsAll. cbn [forallb stepKeeps].
  now rewrite andb_true_r, !andb_assoc.
Qed.

Lemma mount_in_sync (params : URLSearchParams.t) :
  filteredEvents (mount params) =
  derive (events (mount params)) (criteria (mount params)).
Proof. reflexivity. Qed.
End DeriveFacts.

Lemma run_mount_in_sync `{JsHost} (params : URLSearchParams.t)
  (actions : list Action) :
  filteredEvents (run actions (mount params)) =
  derive (events (run actions (mount params)))
    (criteria (run actions (mount params))).
Proof. apply run_filteredEvents, mount_in_sync. Qed.

(** X2.  Choosing another sort key never changes which events are shown:
    the two displayed lists are permutations of each other. *)
Theorem sort_key_keeps_selection `{JsHost} (st : PageState) (key key' : string) :
  Permutation (filteredEvents (dispatch (SetSortBy key) st))
              (filteredEvents (dispatch (SetSortBy key') st)).
Proof.
  simpl. rewrite !derive_perm. apply Permutation_refl.
Qed.

(** X3.  When the loaded events have distinct ids, so have the derived
    ones: the cards have distinct React keys and distinct detail paths. *)
Theorem derived_ids_distinct `{JsHost} (events : list EventRecord) (c : Criteria) :
  NoDup (map id events) ->
  NoDup (map id (derive events c)) /\
  NoDup (map detailsPath (derive events c)).
Proof.
  intros Hn.
  assert (Hid : NoDup (map id (derive events c))).
  { apply (Permutation_NoDup (l := map id (filter (keepsAll c) events))).
    - apply Permutation_map. symmetry. apply derive_perm.
    - now apply distinct_images_filter. }
  split; [exact Hid|].
  induction (derive events c) as [|e l IH]; simpl; [constructor|].
  simpl in Hid. inversion_clear Hid as [|? ? He Hl].
  constructor; [|now apply IH]. intros Hin. apply He.
  apply in_map_iff in Hin. destruct Hin as [e' [Ee' He']].
  apply in_map_iff. exists e'. split; [|exact He'].
  unfold detailsPath in Ee'. now apply string_app_inv_head in Ee'.
Qed.

Lemma derived_ids_distinct_witness :
  NoDup (map id (derive (H := AsciiHost) exampleEvents (withSortKey "name"))) /\
  NoDup (map detailsPath (derive (H := AsciiHost) exampleEvents (withSortKey "name"))).
Proof.
  apply (derived_ids_distinct (H := AsciiHost)). simpl.
  constructor; [|constructor; [|constructor]].
  - intros [E|[]]. discriminate E.
  - intros [].
Defined.

(** X4.  The type filter splits the unfiltered result in two: every event
    shown under "All Types" is shown under exactly one of "online" and
    "offline", and nothing else is shown under those. *)
Theorem type_filter_partitions `{JsHost} (st : PageState) :
  Permutation
    (filteredEvents (dispatch (SetSelectedType "online") st) ++
     filteredEvents (dispatch (SetSelectedType "offline") st))
    (filteredEvents (dispatch (SetSelectedType "") st)).
Proof.
  simpl. rewrite !derive_perm.
  eapply Permutation_trans; [|apply (filter_split_perm _ isOnline)].
  apply Permutation_app; apply Permutation_refl'; apply filter_ext; intros e;
    rewrite !keepsAll_split; unfold stepKeeps, inPriceRange; cbn; btauto.
Qed.

(** X5.  Widening the price range only adds events: whatever is shown for
    a range is still shown for a range that contains it. *)
Theorem wider_price_range_keeps_events `{JsHost} (st : PageState)
  (lo hi lo' hi' : Z) (e : EventRecord) :
  lo' <= lo -> hi <= hi' ->
  In e (filteredEvents (dispatch (SetPriceRange (lo, hi)) st)) ->
  In e (filteredEvents (dispatch (SetPriceRange (lo', hi')) st)).
Proof.
  intros Hlo Hhi. simpl. rewrite !derive_In, !keepsAll_split, !andb_true_iff.
  rewrite !inPriceRange_spec. cbn. intuition lia.
Qed.

Lemma wider_price_range_keeps_events_witness :
  In jazzNight
    (filteredEvents
       (dispatch (H := AsciiHost) (SetPriceRange (0, 1000))
          (dispatch (H := AsciiHost) (SetEvents exampleEvents)
             (mount (H := AsciiHost) URLSearchParams.empty)))).
Proof.
  apply (wider_price_range_keeps_events (H := AsciiHost) _ 10 50 0 1000);
    [lia | lia | simpl; auto].
Defined.

(** X6.  A price range whose minimum is above its maximum shows nothing. *)
Theorem inverted_price_range_shows_nothing `{JsHost} (st : PageState) (lo hi : Z) :
  hi < lo ->
  filteredEvents (dispatch (SetPriceRange (lo, hi)) st) = [] /\
  pageView (dispatch (SetPriceRange (lo, hi)) st) =
    if loading st then Skeleton 6 else NoEventsFound.
Proof.
  intros Hinv.
  assert (E : filteredEvents (dispatch (SetPriceRange (lo, hi)) st) = []).
  { simpl. unfold derive. rewrite filterEvents_filter, filter_none; [reflexivity|].
    intros e _. rewrite keepsAll_split.
    assert (P : forall c, priceRange c = (lo, hi) -> inPriceRange c e = false).
    { intros c Hc. destruct (inPriceRange c e) eqn:P; [|reflexivity].
      apply inPriceRange_spec in P. rewrite Hc in P. simpl in P. lia. }
    rewrite P by reflexivity. apply andb_false_r. }
  split; [exact E|]. unfold pageView. rewrite E. reflexivity.
Qed.

Lemma inverted_price_range_shows_nothing_witness :
  filteredEvents
    (dispatch (H := AsciiHost) (SetPriceRange (500, 100))
       (dispatch (H := AsciiHost) (SetEvents exampleEvents)
          (mount (H := AsciiHost) URLSearchParams.empty))) = [].
Proof.
  apply (inverted_price_range_shows_nothing (H := AsciiHost)). lia.
Defined.

(** X7.  The text query is matched without regard to its case: two
    non-empty queries with the same lowercase form show the same list. *)
Theorem query_case_insensitive `{JsHost} (st : PageState) (q q' : string) :
  q <> "" -> q' <> "" -> toLowerCase q = toLowerCase q' ->
  filteredEvents (dispatch (SetSearchQuery q) st) =
  filteredEvents (dispatch (SetSearchQuery q') st).
Proof.
  intros Hq Hq' Hl. apply truthy_true_iff in Hq, Hq'.
  simpl. unfold derive. rewrite !filterEvents_filter. cbn [sortBy]. f_equal.
  apply filter_ext. intros e. rewrite !keepsAll_split.
  unfold stepKeeps, inPriceRange. cbn. now rewrite Hq, Hq', Hl.
Qed.

Lemma query_case_insensitive_witness :
  filteredEvents
    (dispatch (H := AsciiHost) (SetSearchQuery "JaZZ")
       (dispatch (H := AsciiHost) (SetEvents exampleEvents)
          (mount (H := AsciiHost) URLSearchParams.empty))) =
  filteredEvents
    (dispatch (H := AsciiHost) (SetSearchQuery "jazz")
       (dispatch (H := AsciiHost) (SetEvents exampleEvents)
          (mount (H := AsciiHost) URLSearchParams.empty))).
Proof.
  apply (query_case_insensitive (H := AsciiHost)); [discriminate | discriminate | reflexivity].
Defined.

Lemma searchFilter_filter `{JsHost} (c : Criteria) (l : list EventRecord) :
  searchFilter c l = filter (stepKeeps c SearchStep) l.
Proof. apply (applyStep_filter c SearchStep). Qed.

(** X8.  The search finds an event by its own text: a query equal to the
    title, the description, the location or one of the tags of an event
    keeps that event. *)
Theorem own_text_is_found `{JsHost} (events : list EventRecord) (c : Criteria)
  (e : EventRecord) :
  In e events ->
  searchQuery c = title e \/ searchQuery c = description e \/
  searchQuery c = location e \/
  (exists ts, tags e = Some ts /\ In (searchQuery c) ts) ->
  In e (searchFilter c events).
Proof.
  intros Hin Hq. rewrite searchFilter_filter. apply filter_In.
  split; [exact Hin|]. cbn [stepKeeps]. apply orb_true_iff. right.
  apply matchesSearch_spec. unfold textMatches.
  destruct Hq as [->|[->|[->|[ts [Ets Hts]]]]].
  - left. apply isSubstringOf_refl.
  - right; left. apply isSubstringOf_refl.
  - right; right; left. apply isSubstringOf_refl.
  - right; right; right. exists ts, (searchQuery c).
    split; [exact Ets|]. split; [exact Hts | apply isSubstringOf_refl].
Qed.

Lemma own_text_is_found_witness :
  In artExpo (searchFilter (H := AsciiHost) (withTextQuery "Art Expo") exampleEvents).
Proof.
  apply (own_text_is_found (H := AsciiHost)).
  - simpl. auto.
  - left. reflexivity.
Defined.

(** X9.  A query that contains another one narrows its result: when the
    lowercased [q1] is a substring of the lowercased, non-empty [q2],
    every event kept for [q2] is kept for [q1]. *)
Theorem longer_query_narrows `{JsHost} (events : list EventRecord)
  (c1 c2 : Criteria) (e : EventRecord) :
  searchQuery c2 <> "" ->
  isSubstringOf (toLowerCase (searchQuery c1)) (toLowerCase (searchQuery c2)) ->
  In e (searchFilter c2 events) -> In e (searchFilter c1 events).
Proof.
  intros Hne Hsub. rewrite !searchFilter_filter, !filter_In.
  intros [Hin Hk]. split; [exact Hin|]. cbn [stepKeeps] in *.
  apply truthy_true_iff in Hne. rewrite Hne in Hk. simpl in Hk.
  apply orb_true_iff. right.
  apply matchesSearch_spec in Hk. apply matchesSearch_spec.
  unfold textMatches in *.
  destruct Hk as [Hk|[Hk|[Hk|[ts [tag [Ets [Hts Hk]]]]]]].
  - left. now apply (isSubstringOf_trans _ _ _ Hsub).
  - right; left. now apply (isSubstringOf_trans _ _ _ Hsub).
  - right; right; left. now apply (isSubstringOf_trans _ _ _ Hsub).
  - right; right; right. exists ts, tag.
    split; [exact Ets|]. split; [exact Hts|].
    now apply (isSubstringOf_trans _ _ _ Hsub).
Qed.

Lemma longer_query_narrows_witness :
  In jazzNight (searchFilter (H := AsciiHost) (withTextQuery "jazz") exampleEvents).
Proof.
  apply (longer_query_narrows (H := AsciiHost) exampleEvents
           (withTextQuery "jazz") (withTextQuery "Jazz Ni")).
  - discriminate.
  - exists "", " ni". reflexivity.
  - simpl. auto.
Defined.

(** X10.  The order of the derived list does not depend on the sort
    algorithm of the engine: an arrangement that is sorted for the page's
    comparator and keeps records of equal key in their input order is the
    one [sortEvents] computes. *)
Theorem sort_engine_independent `{JsHost} (sortKey : string)
  (l sorted : list EventRecord) :
  StronglySorted (fun a b => compareEvents sortKey a b <= 0) sorted ->
  (forall x, filter (sameKey (compareEvents sortKey) x) sorted =
             filter (sameKey (compareEvents sortKey) x) l) ->
  sorted = sortEvents sortKey l.
Proof.
  intros Hs Hst. apply sortWith_unique; [apply compareEvents_consistent | exact Hs | exact Hst].
Qed.

Lemma sort_engine_independent_witness :
  [artExpo; jazzNight] = sortEvents (H := AsciiHost) "price-low" exampleEvents.
Proof.
  apply (sort_engine_independent (H := AsciiHost)).
  - apply SSorted_cons; [apply SSorted_cons; [apply SSorted_nil | apply Forall_nil]|].
    apply Forall_cons; [|apply Forall_nil].
    change (0 - 20 <= 0). lia.
  - intros x. unfold sameKey, exampleEvents.
    assert (Ea : compareEvents (H := AsciiHost) "price-low" x artExpo = price x - 0)
      by reflexivity.
    assert (Ej : compareEvents (H := AsciiHost) "price-low" x jazzNight = price x - 20)
      by reflexivity.
    cbn [filter]. rewrite Ea, Ej.
    destruct (Z.eqb_spec (price x - 0) 0); destruct (Z.eqb_spec (price x - 20) 0);
      try reflexivity; lia.
Defined.

(** ** The URL and the criteria *)

Lemma initialCriteria_urlParams (c : Criteria) :
  initialCriteria (urlParams c) =
  {| searchQuery := searchQuery c;
     selectedCategory := selectedCategory c;
     selectedType := "";
     priceRange := (0, 1000);
     sortBy := "date" |}.
Proof.
  unfold initialCriteria, getOrEmpty.
  rewrite urlParams_search, urlParams_category.
  destruct (truthy (searchQuery c)) eqn:Q;
    destruct (truthy (selectedCategory c)) eqn:C;
    rewrite ?truthy_false_iff in *; now rewrite ?Q, ?C.
Qed.

Lemma run_mount_searchParams `{JsHost} (params : URLSearchParams.t)
  (actions : list Action) :
  searchParams (run actions (mount params)) =
  urlParams (criteria (run actions (mount params))).
Proof. now apply run_searchParams. Qed.

(** X11.  Opening the page at the URL it currently shows brings back the
    text query and the category, and nothing else: the type, the price
    range and the sort key start from their defaults. *)
Theorem url_round_trip `{JsHost} (params : URLSearchParams.t)
  (actions : list Action) :
  let st := run actions (mount params) in
  criteria (mount (searchParams st)) =
  {| searchQuery := searchQuery (criteria st);
     selectedCategory := selectedCategory (criteria st);
     selectedType := "";
     priceRange := (0, 1000);
     sortBy := "date" |}.
Proof.
  intros st. subst st. rewrite run_mount_searchParams.
  apply initialCriteria_urlParams.
Qed.

(** X12.  From the first render on, the URL parameters are the projection
    of the criteria; a parameter other than [search] and [category] that
    the page was opened with is gone. *)
Theorem url_mirrors_criteria `{JsHost} (params : URLSearchParams.t)
  (actions : list Action) :
  let st := run actions (mount params) in
  searchParams st = urlParams (criteria st) /\
  forall name, name <> "search" -> name <> "category" ->
    URLSearchParams.get name (searchParams st) = None.
Proof.
  intros st. subst st. split; [apply run_mount_searchParams|].
  intros name Hs Hc. rewrite run_mount_searchParams. now apply urlParams_other.
Qed.

(** X13.  "Clear filters" gives what a page freshly opened without URL
    parameters shows for the same events: the same criteria, the same
    list, and a URL without parameters. *)
Theorem clear_filters_is_fresh_page `{JsHost} (st : PageState) :
  let cleared := dispatch ClearFilters st in
  let fresh := dispatch (SetEvents (events st)) (mount URLSearchParams.empty) in
  criteria cleared = criteria fresh /\
  filteredEvents cleared = filteredEvents fresh /\
  searchParams cleared = [] /\
  searchParams fresh = [] /\
  dispatch ClearFilters cleared = cleared.
Proof. repeat split. Qed.

(** ** The badges and the controls *)

(** X14.  The bar of active filters is rendered iff the query, the
    category or the type is set, and a rendered bar holds at least one
    badge; the price range and the sort key never show up in it. *)
Theorem active_filters_bar (c : Criteria) :
  (activeFilters c = None <->
     searchQuery c = "" /\ selectedCategory c = "" /\ selectedType c = "") /\
  (forall bs, activeFilters c = Some bs ->
     bs <> [] /\ (List.length bs <= 3)%nat /\
     forall b, In b bs ->
       b = SearchBadge ("Search: " ++ searchQuery c) \/
       b = CategoryBadge (selectedCategory c) \/
       exists label, b = TypeBadge label).
Proof.
  split.
  - unfold activeFilters. rewrite <- !truthy_false_iff.
    destruct (truthy (searchQuery c)), (truthy (selectedCategory c)),
      (truthy (selectedType c)); simpl; split;
      try discriminate; try (intros [? [? ?]]; discriminate); auto.
  - intros bs E. unfold activeFilters in E.
    destruct (truthy (searchQuery c) || truthy (selectedCategory c) ||
              truthy (selectedType c)) eqn:Any; [|discriminate].
    injection E as <-. unfold badges.
    destruct (truthy (searchQuery c)), (truthy (selectedCategory c)),
      (truthy (selectedType c)); try discriminate Any; simpl;
      (split; [discriminate|]); (split; [lia|]);
      intros b Hb; intuition eauto.
Qed.

Section ControlFacts.
Context `{JsHost}.
Variable EVENT_CATEGORIES : list string.

Lemma handle_criteria_sortBy (ev : UiEvent) (st : PageState) :
  offered EVENT_CATEGORIES ev st = true ->
  In (sortBy (criteria st)) sortOptions ->
  In (sortBy (criteria (handle ev st))) sortOptions.
Proof.
  intros Hoff Hin. unfold handle.
  destruct ev; cbn [handler]; rewrite ?dispatch_criteria; cbn; try exact Hin.
  - cbn [offered] in Hoff. apply existsb_exists in Hoff. destruct Hoff as [v [Hv E]].
    apply String.eqb_eq in E. now subst.
  - tauto.
Qed.

Lemma handle_criteria_selectedType (ev : UiEvent) (st : PageState) :
  offered EVENT_CATEGORIES ev st = true ->
  In (selectedType (criteria st)) typeOptions ->
  In (selectedType (criteria (handle ev st))) typeOptions.
Proof.
  intros Hoff Hin. unfold handle.
  destruct ev; cbn [handler]; rewrite ?dispatch_criteria; cbn; try exact Hin;
    try tauto.
  cbn [offered] in Hoff. apply existsb_exists in Hoff. destruct Hoff as [v [Hv E]].
  apply String.eqb_eq in E. now subst.
Qed.

Lemma handle_criteria_selectedCategory (ev : UiEvent) (st : PageState) :
  offered EVENT_CATEGORIES ev st = true ->
  selectedCategory (criteria st) = "" \/
    In (selectedCategory (criteria st)) EVENT_CATEGORIES ->
  selectedCategory (criteria (handle ev st)) = "" \/
    In (selectedCategory (criteria (handle ev st))) EVENT_CATEGORIES.
Proof.
  intros Hoff Hin. unfold handle.
  destruct ev; cbn [handler]; rewrite ?dispatch_criteria; cbn; try exact Hin;
    try (now left).
  cbn [offered] in Hoff. apply existsb_exists in Hoff. destruct Hoff as [v [Hv E]].
  apply String.eqb_eq in E. subst v.
  destruct (String.eqb (selectedCategory (criteria st)) _); [now left | now right].
Qed.

Lemma session_invariant (P : PageState -> Prop) :
  (forall ev st, offered EVENT_CATEGORIES ev st = true -> P st -> P (handle ev st)) ->
  forall evs st st',
    P st -> session EVENT_CATEGORIES evs st = Some st' -> P st'.
Proof.
  intros Hstep. induction evs as [|ev evs IH]; intros st st' HP; simpl.
  - intros E. injection E as <-. exact HP.
  - destruct (offered EVENT_CATEGORIES ev st) eqn:Hoff; [|discriminate].
    apply IH. now apply Hstep.
Qed.
End ControlFacts.

Lemma count_checked_in (sel : string) (cats : list string) :
  NoDup cats -> In sel cats ->
  count_occ Bool.bool_dec (map (fun category => String.eqb sel category) cats) true = 1%nat.
Proof.
  induction cats as [|x cats IH]; intros Hn Hin; [contradiction|].
  inversion_clear Hn as [|? ? Hx Hc]. cbn [map].
  destruct (String.eqb_spec sel x) as [E|E].
  - subst x. rewrite count_occ_cons_eq by reflexivity. f_equal.
    apply count_occ_not_In. intros Hin'. apply in_map_iff in Hin'.
    destruct Hin' as [y [Ey Hy]]. apply String.eqb_eq in Ey. now subst y.
  - rewrite count_occ_cons_neq by discriminate. apply IH; [exact Hc|].
    destruct Hin as [Hin|Hin]; [now subst|exact Hin].
Qed.

Lemma none_checked_out (sel : string) (cats : list string) :
  ~ In sel cats ->
  Forall (fun b => b = false) (map (fun category => String.eqb sel category) cats).
Proof.
  intros Hout. apply Forall_forall. intros b Hb. apply in_map_iff in Hb.
  destruct Hb as [y [Ey Hy]]. subst b. apply String.eqb_neq. now intros ->.
Qed.

(** X15.  Through the controls of the page the sort key stays one of the
    five options and the type one of the three, so the comparator never
    takes its default branch and a type badge reads "Online" for the
    online filter and "In-Person" for the offline one, never for no
    filter. *)
Theorem controls_keep_options `{JsHost} (EVENT_CATEGORIES : list string)
  (params : URLSearchParams.t) (evs : list UiEvent) (st : PageState) :
  session EVENT_CATEGORIES evs (mount params) = Some st ->
  In (sortBy (criteria st)) sortOptions /\
  In (selectedType (criteria st)) typeOptions /\
  forall label, In (TypeBadge label) (badges (criteria st)) ->
    label = "Online" /\ selectedType (criteria st) = "online" \/
    label = "In-Person" /\ selectedType (criteria st) = "offline".
Proof.
  intros Hs.
  assert (Hsort : In (sortBy (criteria st)) sortOptions).
  { apply (session_invariant EVENT_CATEGORIES
             (fun s => In (sortBy (criteria s)) sortOptions)
             (handle_criteria_sortBy EVENT_CATEGORIES) evs (mount params) st);
      [simpl; tauto | exact Hs]. }
  assert (Hty : In (selectedType (criteria st)) typeOptions).
  { apply (session_invariant EVENT_CATEGORIES
             (fun s => In (selectedType (criteria s)) typeOptions)
             (handle_criteria_selectedType EVENT_CATEGORIES) evs (mount params) st);
      [simpl; tauto | exact Hs]. }
  split; [exact Hsort|]. split; [exact Hty|].
  intros label Hb. unfold badges in Hb.
  destruct (truthy (searchQuery (criteria st)));
    destruct (truthy (selectedCategory (criteria st)));
    simpl in Hty; destruct Hty as [E|[E|[E|[]]]]; rewrite <- E in *;
    simpl in Hb; intuition (try discriminate; try congruence).
Qed.

Lemma controls_keep_options_witness :
  In (sortBy (criteria (handle (H := AsciiHost) (ChooseSort "name")
                          (mount (H := AsciiHost) URLSearchParams.empty))))
     sortOptions.
Proof.
  apply (controls_keep_options (H := AsciiHost) ["Music"; "Art"]
           URLSearchParams.empty [ChooseSort "name"]).
  reflexivity.
Defined.

(** X16.  When the page is opened without a category, or with one of
    [EVENT_CATEGORIES], then after any use of the controls exactly one
    checkbox of the category filter is checked ("All Categories" counts),
    the categories being distinct and non-empty names. *)
Theorem one_category_box_checked `{JsHost} (EVENT_CATEGORIES : list string)
  (params : URLSearchParams.t) (evs : list UiEvent) (st : PageState) :
  NoDup EVENT_CATEGORIES -> ~ In "" EVENT_CATEGORIES ->
  getOrEmpty "category" params = "" \/
    In (getOrEmpty "category" params) EVENT_CATEGORIES ->
  session EVENT_CATEGORIES evs (mount params) = Some st ->
  count_occ Bool.bool_dec (categoryBoxes EVENT_CATEGORIES (criteria st)) true = 1%nat.
Proof.
  intros Hn Hne H0 Hs.
  assert (Hc : selectedCategory (criteria st) = "" \/
               In (selectedCategory (criteria st)) EVENT_CATEGORIES).
  { apply (session_invariant EVENT_CATEGORIES
             (fun s => selectedCategory (criteria s) = "" \/
                       In (selectedCategory (criteria s)) EVENT_CATEGORIES)
             (handle_criteria_selectedCategory EVENT_CATEGORIES) evs (mount params) st);
      [exact H0 | exact Hs]. }
  unfold categoryBoxes. destruct Hc as [E|Hin].
  - rewrite E. change (negb (truthy "")) with true.
    rewrite count_occ_cons_eq by reflexivity.
    f_equal. apply count_occ_not_In. intros Hin. apply in_map_iff in Hin.
    destruct Hin as [y [Ey Hy]]. apply String.eqb_eq in Ey. now subst y.
  - assert (T : truthy (selectedCategory (criteria st)) = true).
    { apply truthy_true_iff. intros E. now rewrite E in Hin. }
    rewrite T. cbn [negb]. rewrite count_occ_cons_neq by discriminate.
    now apply count_checked_in.
Qed.

Lemma one_category_box_checked_witness :
  count_occ Bool.bool_dec
    (categoryBoxes ["Music"; "Art"]
       (criteria (handle (H := AsciiHost) (ToggleCategory "Art")
                    (handle (H := AsciiHost) (ToggleCategory "Music")
                       (mount (H := AsciiHost) URLSearchParams.empty)))))
    true = 1%nat.
Proof.
  apply (one_category_box_checked (H := AsciiHost) ["Music"; "Art"]
           URLSearchParams.empty [ToggleCategory "Music"; ToggleCategory "Art"]).
  - constructor; [|constructor; [|constructor]].
    + intros [E|[]]. discriminate E.
    + intros [].
  - intros [E|[E|[]]]; discriminate E.
  - left. reflexivity.
  - reflexivity.
Defined.

(** X17.  A category in the URL that is not one of [EVENT_CATEGORIES] is
    applied all the same: once the events are loaded only events of that
    category are shown and its badge is there, while no checkbox of the
    category filter is checked. *)
Theorem foreign_url_category `{JsHost} (EVENT_CATEGORIES : list string)
  (params : URLSearchParams.t) (mockEvents : list EventRecord) :
  getOrEmpty "category" params <> "" ->
  ~ In (getOrEmpty "category" params) EVENT_CATEGORIES ->
  let st := dispatch (SetEvents mockEvents) (mount params) in
  Forall (fun b => b = false) (categoryBoxes EVENT_CATEGORIES (criteria st)) /\
  In (CategoryBadge (getOrEmpty "category" params)) (badges (criteria st)) /\
  forall e, In e (filteredEvents st) -> category e = getOrEmpty "category" params.
Proof.
  intros Hne Hout st.
  assert (Ec : criteria st = initialCriteria params) by reflexivity.
  assert (Ef : filteredEvents st = derive mockEvents (initialCriteria params))
    by reflexivity.
  assert (Es : selectedCategory (initialCriteria params) =
               getOrEmpty "category" params) by reflexivity.
  pose proof Hne as T. apply truthy_true_iff in T.
  rewrite Ec, Ef. split; [|split].
  - unfold categoryBoxes. rewrite Es, T. constructor; [reflexivity|].
    now apply none_checked_out.
  - unfold badges. rewrite Es, T. apply in_or_app. right.
    apply in_or_app. left. now left.
  - intros e He. apply derive_In in He. destruct He as [_ Hk].
    rewrite keepsAll_split in Hk. rewrite !andb_true_iff in Hk.
    destruct Hk as [[[_ Hc] _] _]. cbn [stepKeeps] in Hc.
    rewrite Es, T in Hc. now apply String.eqb_eq in Hc.
Qed.

Lemma foreign_url_category_witness :
  Forall (fun b => b = false)
    (categoryBoxes ["Music"; "Art"]
       (criteria (dispatch (H := AsciiHost) (SetEvents exampleEvents)
                    (mount (H := AsciiHost) [("category", "Opera")])))).
Proof.
  assert (Hne : getOrEmpty "category" [("category", "Opera")] <> "") by discriminate.
  assert (Hout : ~ In (getOrEmpty "category" [("category", "Opera")]) ["Music"; "Art"]).
  { intros [E|[E|[]]]; discriminate E. }
  exact (proj1 (foreign_url_category (H := AsciiHost) ["Music"; "Art"]
                  [("category", "Opera")] exampleEvents Hne Hout)).
Defined.

(** ** The view *)

Section ViewFacts.
Context `{JsHost}.

Lemma run_loading_false (actions : list Action) : forall st,
  loading st = false -> loading (run actions st) = false.
Proof.
  unfold run. induction actions as [|a actions IH]; intros st Hl; simpl; [exact Hl|].
  apply IH. destruct a; simpl; try exact Hl; reflexivity.
Qed.

Lemma run_not_loaded (actions : list Action) : forall st,
  (forall l, ~ In (SetEvents l) actions) ->
  loading (run actions st) = loading st /\ events (run actions st) = events st.
Proof.
  unfold run. induction actions as [|a actions IH]; intros st Hno; simpl; [tauto|].
  destruct (IH (dispatch a st)) as [Hl He].
  { intros l Hl. apply (Hno l). now right. }
  rewrite Hl, He. destruct a; simpl; try tauto.
  exfalso. apply (Hno mockEvents). now left.
Qed.

Lemma run_loaded (actions : list Action) : forall st,
  (exists l, In (SetEvents l) actions) -> loading (run actions st) = false.
Proof.
  induction actions as [|a actions IH]; intros st [l Hl]; [contradiction|].
  change (run (a :: actions) st) with (run actions (dispatch a st)).
  destruct Hl as [->|Hl].
  - now apply run_loading_false.
  - apply IH. now exists l.
Qed.
End ViewFacts.

(** X18.  The skeleton is on screen exactly until the events are loaded:
    before [setEvents] no action on the criteria replaces it (and there
    are no events yet), after it no action brings it back. *)
Theorem skeleton_until_loaded `{JsHost} (params : URLSearchParams.t)
  (actions : list Action) :
  let st := run actions (mount params) in
  ((forall l, ~ In (SetEvents l) actions) ->
     pageView st = Skeleton 6 /\ events st = [] /\ filteredEvents st = []) /\
  ((exists l, In (SetEvents l) actions) ->
     forall n, pageView st <> Skeleton n).
Proof.
  intros st. split.
  - intros Hno. destruct (run_not_loaded actions (mount params) Hno) as [Hl He].
    fold st in Hl, He. unfold pageView. rewrite Hl. split; [reflexivity|].
    split; [exact He|].
    pose proof (run_mount_in_sync params actions) as Hd.
    fold st in Hd. rewrite Hd, He. unfold derive. now rewrite filterEvents_filter.
  - intros Hex n. pose proof (run_loaded actions (mount params) Hex) as Hl.
    fold st in Hl. unfold pageView. rewrite Hl.
    destruct (List.length (filteredEvents st) =? 0)%nat; discriminate.
Qed.

Lemma skeleton_until_loaded_witness :
  pageView (run (H := AsciiHost) [SetSearchQuery "jazz"; SetSortBy "name"]
              (mount (H := AsciiHost) URLSearchParams.empty)) = Skeleton 6.
Proof.
  apply (skeleton_until_loaded (H := AsciiHost) URLSearchParams.empty
           [SetSearchQuery "jazz"; SetSortBy "name"]).
  intros l [E|[E|[]]]; discriminate E.
Defined.

(** X20.  Sorted by "price-low" the cards with the 'Free' badge come
    before every card with a price; sorted by "price-high" they come after
    every card with a price. *)
Theorem free_cards_by_price_order `{JsHost} (events : list EventRecord)
  (c : Criteria) :
  (sortBy c = "price-low" ->
     StronglySorted (fun a b => priceBadge b = None -> priceBadge a = None)
       (derive events c)) /\
  (sortBy c = "price-high" ->
     StronglySorted (fun a b => priceBadge a = None -> priceBadge b = None)
       (derive events c)).
Proof.
  assert (Hfree : forall e, priceBadge e = None <-> price e <= 0).
  { intros e. unfold priceBadge. destruct (Z.gtb_spec (price e) 0); split;
      intros; try discriminate; try reflexivity; lia. }
  split; intros Hk; unfold derive; rewrite Hk.
  - eapply StronglySorted_impl; [|apply (sortEvents_sorted "price-low")].
    intros a b Hab. cbv beta in Hab. rewrite !Hfree. by_key Hab.
  - eapply StronglySorted_impl; [|apply (sortEvents_sorted "price-high")].
    intros a b Hab. cbv beta in Hab. rewrite !Hfree. by_key Hab.
Qed.

Lemma free_cards_by_price_order_witness :
  StronglySorted (fun a b => priceBadge b = None -> priceBadge a = None)
    (derive (H := AsciiHost) exampleEvents (withSortKey "price-low")).
Proof.
  apply (free_cards_by_price_order (H := AsciiHost)). reflexivity.
Defined.

(** * Further properties of the modal *)

Lemma depsChanged_false_iff (prev next : ModalProps) :
  AuthModal.depsChanged prev next = false <->
  defaultMode prev = defaultMode next /\ isOpen prev = isOpen next.
Proof.
  unfold AuthModal.depsChanged.
  rewrite orb_false_iff, !negb_false_iff, String.eqb_eq, Bool.eqb_true_iff.
  reflexivity.
Qed.

(** X21.  In the variant with the effect a manual switch lasts as long as
    the parent renders with the same default and the same visibility;
    closing or reopening the modal puts the default mode back. *)
Theorem manual_switch_lifetime (p : ModalProps) (st : ModalState) :
  (defaultMode p = defaultMode (props st) -> isOpen p = isOpen (props st) ->
     mode (AuthModal.rerender p (switchToSignup st)) = "signup" /\
     mode (AuthModal.rerender p (switchToLogin st)) = "login") /\
  (isOpen p <> isOpen (props st) ->
     mode (AuthModal.rerender p (switchToSignup st)) = defaultMode p /\
     mode (AuthModal.rerender p (switchToLogin st)) = defaultMode p).
Proof.
  unfold AuthModal.rerender. cbn [props switchToSignup switchToLogin]. split.
  - intros Hd Ho.
    assert (E : AuthModal.depsChanged (props st) p = false)
      by (apply depsChanged_false_iff; split; congruence).
    rewrite E. split; reflexivity.
  - intros Ho.
    assert (E : AuthModal.depsChanged (props st) p = true).
    { destruct (AuthModal.depsChanged (props st) p) eqn:D; [reflexivity|].
      apply depsChanged_false_iff in D. destruct D as [_ D]. congruence. }
    rewrite E. split; reflexivity.
Qed.

Lemma manual_switch_lifetime_witness :
  mode (AuthModal.rerender {| isOpen := false; defaultModeProp := Some "login" |}
          (switchToSignup
             (AuthModal.mount {| isOpen := true; defaultModeProp := Some "login" |})))
  = "login" /\
  mode (AuthModal.rerender {| isOpen := true; defaultModeProp := None |}
          (switchToSignup
             (AuthModal.mount {| isOpen := true; defaultModeProp := Some "login" |})))
  = "signup".
Proof.
  split.
  - apply (proj2 (manual_switch_lifetime
                    {| isOpen := false; defaultModeProp := Some "login" |}
                    (AuthModal.mount {| isOpen := true; defaultModeProp := Some "login" |}))).
    discriminate.
  - apply (proj1 (manual_switch_lifetime
                    {| isOpen := true; defaultModeProp := None |}
                    (AuthModal.mount {| isOpen := true; defaultModeProp := Some "login" |})));
      reflexivity.
Defined.

Lemma variants_agree_from (d : string) (o : bool) (evs : list ModalEvent) :
  forall st1 st2,
    mode st1 = mode st2 ->
    defaultMode (props st1) = d -> isOpen (props st1) = o ->
    (forall p, In (ParentRenders p) evs -> defaultMode p = d /\ isOpen p = o) ->
    mode (modalRun AuthModal.rerender evs st1) =
    mode (modalRun AuthModalUnsynced.rerender evs st2).
Proof.
  unfold modalRun. induction evs as [|ev evs IH]; intros st1 st2 Hm Hd Ho Hst; simpl.
  - exact Hm.
  - assert (Hrest : forall p, In (ParentRenders p) evs ->
                              defaultMode p = d /\ isOpen p = o)
      by (intros p Hp; apply Hst; now right).
    destruct ev as [p| | |]; simpl.
    + destruct (Hst p (or_introl eq_refl)) as [Hpd Hpo].
      assert (E : AuthModal.depsChanged (props st1) p = false)
        by (apply depsChanged_false_iff; split; congruence).
      apply IH; try assumption. unfold AuthModal.rerender. rewrite E. exact Hm.
      unfold AuthModal.rerender. now rewrite E.
      unfold AuthModal.rerender. now rewrite E.
    + now apply IH.
    + now apply IH.
    + now apply IH.
Qed.

(** X22.  As long as the parent keeps passing the default mode and the
    visibility the modal was mounted with, the two variants of the modal
    are in the same mode after the same events. *)
Theorem variants_agree_while_props_stable (p0 : ModalProps) (evs : list ModalEvent) :
  (forall p, In (ParentRenders p) evs ->
     defaultMode p = defaultMode p0 /\ isOpen p = isOpen p0) ->
  mode (modalRun AuthModal.rerender evs (AuthModal.mount p0)) =
  mode (modalRun AuthModalUnsynced.rerender evs (AuthModalUnsynced.mount p0)).
Proof.
  intros Hst. now apply (variants_agree_from (defaultMode p0) (isOpen p0)).
Qed.

Lemma variants_agree_while_props_stable_witness :
  mode (modalRun AuthModal.rerender
          [ClickSwitchToSignup;
           ParentRenders {| isOpen := true; defaultModeProp := None |}]
          (AuthModal.mount {| isOpen := true; defaultModeProp := Some "login" |})) =
  mode (modalRun AuthModalUnsynced.rerender
          [ClickSwitchToSignup;
           ParentRenders {| isOpen := true; defaultModeProp := None |}]
          (AuthModalUnsynced.mount {| isOpen := true; defaultModeProp := Some "login" |})).
Proof.
  apply variants_agree_while_props_stable.
  intros p [E|[E|[]]]; [discriminate E|]. injection E as <-. split; reflexivity.
Defined.

(** X23.  In the variant without the effect the parent has no say in the
    mode after the mount: the mode after a run of events is the mode after
    the clicks alone. *)
Theorem unsynced_mode_ignores_parent (evs : list ModalEvent) (st : ModalState) :
  mode (modalRun AuthModalUnsynced.rerender evs st) =
  mode (modalRun AuthModalUnsynced.rerender
          (filter (fun ev => match ev with
                             | ParentRenders _ => false
                             | _ => true
                             end) evs) st).
Proof.
  assert (G : forall st1 st2, mode st1 = mode st2 ->
    mode (modalRun AuthModalUnsynced.rerender evs st1) =
    mode (modalRun AuthModalUnsynced.rerender
            (filter (fun ev => match ev with
                               | ParentRenders _ => false
                               | _ => true
                               end) evs) st2)).
  { unfold modalRun. induction evs as [|ev evs IH]; intros st1 st2 Hm; simpl.
    - exact Hm.
    - destruct ev; simpl; apply IH; try reflexivity; exact Hm. }
  now apply G.
Qed.

(** X24.  In the variant with the effect, when every default mode the
    parent passes is "login" or "signup", the mode is "login" or "signup"
    after any run of events, and the form on screen is the one of the
    mode. *)
Theorem synced_mode_two_valued (p0 : ModalProps) (evs : list ModalEvent) :
  defaultMode p0 = "login" \/ defaultMode p0 = "signup" ->
  (forall p, In (ParentRenders p) evs ->
     defaultMode p = "login" \/ defaultMode p = "signup") ->
  let st := modalRun AuthModal.rerender evs (AuthModal.mount p0) in
  (mode st = "login" /\ view st = LoginView) \/
  (mode st = "signup" /\ view st = SignupView).
Proof.
  intros H0 Hall st.
  assert (Hm : mode st = "login" \/ mode st = "signup").
  { subst st.
    assert (G : forall s, (mode s = "login" \/ mode s = "signup") ->
      mode (modalRun AuthModal.rerender evs s) = "login" \/
      mode (modalRun AuthModal.rerender evs s) = "signup").
    { unfold modalRun. induction evs as [|ev evs IH]; intros s Hs; simpl; [exact Hs|].
      apply IH; [intros p Hp; apply Hall; now right|].
      destruct ev as [p| | |]; simpl; try tauto.
      unfold AuthModal.rerender.
      destruct (AuthModal.depsChanged (props s) p); simpl; [|exact Hs].
      apply Hall. now left. }
    apply G. exact H0. }
  unfold view. destruct Hm as [E|E]; rewrite E; [left | right]; now split.
Qed.

Lemma synced_mode_two_valued_witness :
  (mode (modalRun AuthModal.rerender
           [ClickSwitchToSignup;
            ParentRenders {| isOpen := false; defaultModeProp := None |}]
           (AuthModal.mount {| isOpen := true; defaultModeProp := Some "signup" |}))
   = "login" /\
   view (modalRun AuthModal.rerender
           [ClickSwitchToSignup;
            ParentRenders {| isOpen := false; defaultModeProp := None |}]
           (AuthModal.mount {| isOpen := true; defaultModeProp := Some "signup" |}))
   = LoginView) \/
  (mode (modalRun AuthModal.rerender
           [ClickSwitchToSignup;
            ParentRenders {| isOpen := false; defaultModeProp := None |}]
           (AuthModal.mount {| isOpen := true; defaultModeProp := Some "signup" |}))
   = "signup" /\
   view (modalRun AuthModal.rerender
           [ClickSwitchToSignup;
            ParentRenders {| isOpen := false; defaultModeProp := None |}]
           (AuthModal.mount {| isOpen := true; defaultModeProp := Some "signup" |}))
   = SignupView).
Proof.
  apply (synced_mode_two_valued {| isOpen := true; defaultModeProp := Some "signup" |}
           [ClickSwitchToSignup;
            ParentRenders {| isOpen := false; defaultModeProp := None |}]).
  - right. reflexivity.
  - intros p [E|[E|[]]]; [discriminate E|]. injection E as <-. left. reflexivity.
Defined.

(** * The order of the derived list *)

(** ** Comparators built from comparators *)

Lemma thenBy_consistent {A : Type} (p q : A -> A -> Z) :
  Consistent p -> Consistent q ->
  Consistent (fun a b => if p a b =? 0 then q a b else p a b).
Proof.
  intros [Hps Hpt] [Hqs Hqt]. split.
  - intros a b. pose proof (Hps a b). pose proof (Hps b a). pose proof (Hqs a b).
    destruct (Z.eqb_spec (p a b) 0); destruct (Z.eqb_spec (p b a) 0); lia.
  - intros a b c.
    pose proof (Hps a b). pose proof (Hps b a). pose proof (Hps b c).
    pose proof (Hps c b). pose proof (Hps a c). pose proof (Hps c a).
    pose proof (Hpt a b c). pose proof (Hpt c b a). pose proof (Hpt c a b).
    pose proof (Hpt b c a). pose proof (Hqt a b c).
    destruct (Z.eqb_spec (p a b) 0); destruct (Z.eqb_spec (p b c) 0);
      destruct (Z.eqb_spec (p a c) 0); lia.
Qed.

Lemma flip_consistent {A : Type} (q : A -> A -> Z) :
  Consistent q -> Consistent (fun a b => q b a).
Proof.
  intros [Hs Ht]. split.
  - intros a b. apply Hs.
  - intros a b c Hab Hbc. now apply (Ht c b a).
Qed.

Lemma lexCompare_consistent (letterCompare : ascii -> ascii -> Z) :
  Consistent letterCompare -> Consistent (lexCompare letterCompare).
Proof.
  intros [Hs Ht]. split.
  - intros s. induction s as [|a s IH]; intros [|b t]; simpl; try lia.
    pose proof (Hs a b). pose proof (Hs b a).
    destruct (Z.eqb_spec (letterCompare a b) 0);
      destruct (Z.eqb_spec (letterCompare b a) 0); try lia. apply IH.
  - intros s. induction s as [|a s IH]; intros [|b t] [|c u]; simpl; try lia.
    pose proof (Hs a b). pose proof (Hs b a). pose proof (Hs b c).
    pose proof (Hs c b). pose proof (Hs a c). pose proof (Hs c a).
    pose proof (Ht a b c). pose proof (Ht c b a). pose proof (Ht c a b).
    pose proof (Ht b c a).
    destruct (Z.eqb_spec (letterCompare a b) 0);
      destruct (Z.eqb_spec (letterCompare b c) 0);
      destruct (Z.eqb_spec (letterCompare a c) 0); try lia. apply IH.
Qed.

Lemma codeUnitOrder_consistent : Consistent codeUnitOrder.
Proof. unfold Consistent, codeUnitOrder. split; intros; lia. Qed.

Lemma foldedOrder_consistent : Consistent foldedOrder.
Proof. unfold Consistent, foldedOrder, codeUnitOrder. split; intros; lia. Qed.

Lemma collationCompare_consistent : Consistent collationCompare.
Proof.
  apply (thenBy_consistent (lexCompare foldedOrder)
           (fun s t => lexCompare codeUnitOrder t s)).
  - apply lexCompare_consistent, foldedOrder_consistent.
  - apply flip_consistent, lexCompare_consistent, codeUnitOrder_consistent.
Qed.

Definition CollationHost : JsHost := {|
  toLowerCase := asciiToLowerCase;
  localeCompare := collationCompare;
  localeCompare_antisym := proj1 collationCompare_consistent;
  localeCompare_trans := proj2 collationCompare_consistent
|}.

(** The first level of the collation is the lexicographic order with the
    case folded. *)
Lemma collationCompare_folded (s t : string) :
  collationCompare s t <= 0 -> lexCompare foldedOrder s t <= 0.
Proof.
  unfold collationCompare.
  destruct (Z.eqb_spec (lexCompare foldedOrder s t) 0); lia.
Qed.

(** ** The comparator of the page and the sort keys of the specification *)

Section KeyFacts.
Context `{JsHost}.

Lemma attendeesOr0_count (e : EventRecord) : attendeesOr0 e = attendeeCount e.
Proof. unfold attendeesOr0, attendeeCount. now destruct (attendees e). Qed.

Lemma keyNotAfter_compare (sortKey : string) (a b : EventRecord) :
  keyNotAfter sortKey a b <-> compareEvents sortKey a b <= 0.
Proof.
  unfold keyNotAfter, compareEvents, attendeesOr0, attendeeCount.
  destruct (String.eqb sortKey "date"); [lia|].
  destruct (String.eqb sortKey "price-low"); [lia|].
  destruct (String.eqb sortKey "price-high"); [lia|].
  destruct (String.eqb sortKey "popularity"); [lia|].
  destruct (String.eqb sortKey "name"); [reflexivity | lia].
Qed.

Lemma keyEqual_sameKey (sortKey : string) (a b : EventRecord) :
  keyEqual sortKey a b = sameKey (compareEvents sortKey) a b.
Proof.
  assert (Z0 : forall x y, (x =? y) = (x - y =? 0)).
  { intros x y. destruct (Z.eqb_spec x y); destruct (Z.eqb_spec (x - y) 0);
      try reflexivity; lia. }
  assert (Z1 : forall x y, (x =? y) = (y - x =? 0)).
  { intros x y. destruct (Z.eqb_spec x y); destruct (Z.eqb_spec (y - x) 0);
      try reflexivity; lia. }
  unfold keyEqual, sameKey, compareEvents, attendeesOr0, attendeeCount.
  destruct (String.eqb sortKey "date"); [apply Z0|].
  destruct (String.eqb sortKey "price-low"); [apply Z0|].
  destruct (String.eqb sortKey "price-high"); [apply Z1|].
  destruct (String.eqb sortKey "popularity"); [apply Z1|].
  destruct (String.eqb sortKey "name"); reflexivity.
Qed.

Lemma sortEvents_sorted_by_key (sortKey : string) (l : list EventRecord) :
  StronglySorted (keyNotAfter sortKey) (sortEvents sortKey l).
Proof.
  eapply StronglySorted_impl; [|apply sortEvents_sorted].
  intros a b Hab. now apply keyNotAfter_compare.
Qed.

Lemma sortEvents_keeps_equal_keys (sortKey : string) (x : EventRecord)
  (l : list EventRecord) :
  filter (keyEqual sortKey x) (sortEvents sortKey l) = filter (keyEqual sortKey x) l.
Proof.
  rewrite (filter_ext (keyEqual sortKey x) (sameKey (compareEvents sortKey) x) (keyEqual_sameKey sortKey x) (sortEvents sortKey l)).
  rewrite (filter_ext (keyEqual sortKey x) (sameKey (compareEvents sortKey) x) (keyEqual_sameKey sortKey x) l).
  apply sortWith_stable, compareEvents_consistent.
Qed.

Lemma sortEvents_unique_by_key (sortKey : string) (l arranged : list EventRecord) :
  StronglySorted (keyNotAfter sortKey) arranged ->
  (forall x, filter (keyEqual sortKey x) arranged = filter (keyEqual sortKey x) l) ->
  arranged = sortEvents sortKey l.
Proof.
  intros Hs Hst. apply sortWith_unique.
  - apply compareEvents_consistent.
  - eapply StronglySorted_impl; [|exact Hs]. intros a b. apply keyNotAfter_compare.
  - intros x.
    rewrite <- (filter_ext (keyEqual sortKey x) (sameKey (compareEvents sortKey) x) (keyEqual_sameKey sortKey x) arranged).
    rewrite <- (filter_ext (keyEqual sortKey x) (sameKey (compareEvents sortKey) x) (keyEqual_sameKey sortKey x) l). apply Hst.
Qed.
End KeyFacts.

(** C3.  The sort step is a stable sort by the chosen key: the result is a
    permutation of the input; it ascends by date for "date" and by price
    for "price-low", descends by price for "price-high" and by attendee
    count (0 when the count is missing) for "popularity", and for "name"
    follows the title order of the host's [localeCompare], which is the
    lexicographic order over the letter order that the host collates by;
    records with equal keys keep their input order.  The two example
    events under "price-low" come out as [Art Expo; Jazz Night], and the
    titles cherry, Banana, apple come out as apple, Banana, cherry on a
    host that collates as a dictionary does; events with no count, 0, 2
    and 5 attendees come out under "popularity" as five, two, none, zero. *)
Theorem sortEvents_stable_by_key :
  (forall (H : JsHost) (l : list EventRecord),
     (forall key, Permutation (sortEvents key l) l) /\
     StronglySorted (fun a b => date a <= date b) (sortEvents "date" l) /\
     StronglySorted (fun a b => price a <= price b) (sortEvents "price-low" l) /\
     StronglySorted (fun a b => price a >= price b) (sortEvents "price-high" l) /\
     StronglySorted (fun a b => attendeeCount a >= attendeeCount b)
       (sortEvents "popularity" l) /\
     StronglySorted (fun a b => localeCompare (title a) (title b) <= 0)
       (sortEvents "name" l) /\
     (forall letterCompare : ascii -> ascii -> Z,
        (forall s t, localeCompare s t <= 0 -> lexCompare letterCompare s t <= 0) ->
        StronglySorted
          (fun a b => lexCompare letterCompare (title a) (title b) <= 0)
          (sortEvents "name" l)) /\
     (forall d, filter (fun e => date e =? d) (sortEvents "date" l) =
                filter (fun e => date e =? d) l) /\
     (forall p, filter (fun e => price e =? p) (sortEvents "price-low" l) =
                filter (fun e => price e =? p) l) /\
     (forall p, filter (fun e => price e =? p) (sortEvents "price-high" l) =
                filter (fun e => price e =? p) l) /\
     (forall n, filter (fun e => attendeeCount e =? n) (sortEvents "popularity" l) =
                filter (fun e => attendeeCount e =? n) l) /\
     (forall t, filter (fun e => localeCompare t (title e) =? 0) (sortEvents "name" l) =
                filter (fun e => localeCompare t (title e) =? 0) l)) /\
  derive (H := AsciiHost) exampleEvents (withSortKey "price-low") =
    [artExpo; jazzNight] /\
  map title (sortEvents (H := CollationHost) "name" fruitEvents) =
    ["apple"; "Banana"; "cherry"] /\
  map title (sortEvents (H := AsciiHost) "popularity" attendedEvents) =
    ["five"; "two"; "none"; "zero"].
Proof.
  split; [|split; [|split]; reflexivity]. intros H l.
  assert (Kd : forall a b, compareEvents "date" a b = date a - date b)
    by reflexivity.
  assert (Kl : forall a b, compareEvents "price-low" a b = price a - price b)
    by reflexivity.
  assert (Kh : forall a b, compareEvents "price-high" a b = price b - price a)
    by reflexivity.
  assert (Kp : forall a b, compareEvents "popularity" a b =
                           attendeeCount b - attendeeCount a) by reflexivity.
  assert (Kn : forall a b, compareEvents "name" a b =
                           localeCompare (title a) (title b)) by reflexivity.
  split; [intros key; apply sortEvents_perm|].
  split; [|split; [|split; [|split; [|split; [|split]]]]].
  - eapply StronglySorted_impl; [|apply (sortEvents_sorted "date")].
    intros a b Hab. cbv beta in Hab. rewrite Kd in Hab. lia.
  - eapply StronglySorted_impl; [|apply (sortEvents_sorted "price-low")].
    intros a b Hab. cbv beta in Hab. rewrite Kl in Hab. lia.
  - eapply StronglySorted_impl; [|apply (sortEvents_sorted "price-high")].
    intros a b Hab. cbv beta in Hab. rewrite Kh in Hab. lia.
  - eapply StronglySorted_impl; [|apply (sortEvents_sorted "popularity")].
    intros a b Hab. cbv beta in Hab. rewrite Kp in Hab. lia.
  - eapply StronglySorted_impl; [|apply (sortEvents_sorted "name")].
    intros a b Hab. cbv beta in Hab. now rewrite Kn in Hab.
  - intros letterCompare Hlex.
    eapply StronglySorted_impl; [|apply (sortEvents_sorted "name")].
    intros a b Hab. cbv beta in Hab. rewrite Kn in Hab. now apply Hlex.
  - split; [|split; [|split; [|split]]]; intros k; apply sortEvents_stable_class;
      intros a b Ha Hb; apply Z.eqb_eq in Ha, Hb.
    + rewrite Kd. lia.
    + rewrite Kl. lia.
    + rewrite Kh. lia.
    + rewrite Kp. lia.
    + rewrite Kn. now apply (localeCompare_class k).
Qed.

Lemma sortEvents_stable_by_key_witness :
  StronglySorted
    (fun a b => lexCompare foldedOrder (title a) (title b) <= 0)
    (sortEvents (H := CollationHost) "name" fruitEvents).
Proof.
  destruct (proj1 sortEvents_stable_by_key CollationHost fruitEvents)
    as [_ [_ [_ [_ [_ [_ [Hlex _]]]]]]].
  apply Hlex. intros s t. apply collationCompare_folded.
Defined.

(** C1.  With an empty text query, an empty category, an empty type and a
    price range that contains the price of every event, [derive] returns
    the events reordered by the chosen sort key and by nothing else: a
    permutation of the input with the same members, sorted by the key,
    with records of equal key in their input order; and it is the only
    such arrangement. *)
Theorem derive_without_filters `{JsHost} (events : list EventRecord) (c : Criteria) :
  searchQuery c = "" ->
  selectedCategory c = "" ->
  selectedType c = "" ->
  (forall e, In e events ->
     fst (priceRange c) <= price e <= snd (priceRange c)) ->
  Permutation (derive events c) events /\
  (forall e, In e (derive events c) <-> In e events) /\
  StronglySorted (keyNotAfter (sortBy c)) (derive events c) /\
  (forall x, filter (keyEqual (sortBy c) x) (derive events c) =
             filter (keyEqual (sortBy c) x) events) /\
  (forall arranged,
     StronglySorted (keyNotAfter (sortBy c)) arranged ->
     (forall x, filter (keyEqual (sortBy c) x) arranged =
                filter (keyEqual (sortBy c) x) events) ->
     arranged = derive events c).
Proof.
  intros Hq Hcat Hty Hprice.
  assert (E : derive events c = sortEvents (sortBy c) events).
  { unfold derive, filterEvents, priceFilter, typeFilter, categoryFilter, searchFilter.
    rewrite Hq, Hcat, Hty. simpl. f_equal. apply filter_all.
    intros e He. apply inPriceRange_spec. now apply Hprice. }
  rewrite E. split; [|split; [|split; [|split]]].
  - apply sortEvents_perm.
  - intros e. split; apply Permutation_in; [|symmetry]; apply sortEvents_perm.
  - apply sortEvents_sorted_by_key.
  - intros x. apply sortEvents_keeps_equal_keys.
  - intros arranged Hs Hst. now apply sortEvents_unique_by_key.
Qed.

Lemma derive_without_filters_witness :
  [artExpo; jazzNight] =
  derive (H := AsciiHost) exampleEvents (withSortKey "popularity").
Proof.
  assert (Hprice : forall e, In e exampleEvents ->
            fst (priceRange (withSortKey "popularity")) <= price e <=
            snd (priceRange (withSortKey "popularity"))).
  { intros e [<-|[<-|[]]]; simpl; lia. }
  destruct (derive_without_filters (H := AsciiHost) exampleEvents
              (withSortKey "popularity") eq_refl eq_refl eq_refl Hprice)
    as [_ [_ [_ [_ Huniq]]]].
  apply Huniq.
  - apply SSorted_cons; [apply SSorted_cons; [apply SSorted_nil | apply Forall_nil]|].
    apply Forall_cons; [|apply Forall_nil].
    change (50 <= 200). lia.
  - intros x.
    assert (Ea : keyEqual (H := AsciiHost) "popularity" x artExpo =
                 (attendeeCount x =? 200)) by reflexivity.
    assert (Ej : keyEqual (H := AsciiHost) "popularity" x jazzNight =
                 (attendeeCount x =? 50)) by reflexivity.
    unfold exampleEvents. cbn [filter sortBy withSortKey]. rewrite Ea, Ej.
    destruct (Z.eqb_spec (attendeeCount x) 200);
      destruct (Z.eqb_spec (attendeeCount x) 50); try reflexivity; lia.
Defined.

(** * The renders between a setter and its effects *)

Section RenderFacts.
Context `{JsHost}.

Lemma derive_nil (c : Criteria) : derive [] c = [].
Proof. unfold derive. now rewrite filterEvents_filter. Qed.

Lemma update_filteredEvents (a : Action) (st : PageState) :
  filteredEvents (update a st) = filteredEvents st.
Proof. now destruct a. Qed.

Lemma update_events (a : Action) (st : PageState) :
  isSetEvents a = false -> events (update a st) = events st.
Proof. destruct a; simpl; intros E; try reflexivity; discriminate E. Qed.

Lemma dispatch_in_sync (a : Action) (st : PageState) :
  filteredEvents st = derive (events st) (criteria st) ->
  filteredEvents (dispatch a st) =
  derive (events (dispatch a st)) (criteria (dispatch a st)).
Proof. intros Hst. destruct a; simpl; try reflexivity; exact Hst. Qed.

Lemma in_sync_showsLoaded (st : PageState) :
  filteredEvents st = derive (events st) (criteria st) -> showsLoaded st.
Proof.
  intros E. unfold showsLoaded. rewrite E. split.
  - intros e He. now apply derive_In in He.
  - apply derive_length.
Qed.

Lemma committed_showsLoaded (actions : list Action) : forall st,
  filteredEvents st = derive (events st) (criteria st) ->
  List.length (filter isSetEvents actions) = 0%nat \/
    ((List.length (filter isSetEvents actions) <= 1)%nat /\ events st = []) ->
  forall st', In st' (committed actions st) -> showsLoaded st'.
Proof.
  induction actions as [|a rest IH]; intros st Hst Hload st' Hin; [contradiction|].
  cbn [committed] in Hin. destruct Hin as [<-|[<-|Hin]].
  - unfold showsLoaded. rewrite update_filteredEvents, Hst.
    destruct (isSetEvents a) eqn:L.
    + cbn [filter] in Hload. rewrite L in Hload. cbn [List.length] in Hload.
      destruct Hload as [Hload|[_ He]]; [discriminate|].
      rewrite He, derive_nil. split; [intros e []|apply Nat.le_0_l].
    + rewrite (update_events a st L). split.
      * intros e He. now apply derive_In in He.
      * apply derive_length.
  - now apply in_sync_showsLoaded, dispatch_in_sync.
  - apply (IH (dispatch a st)); [now apply dispatch_in_sync | | exact Hin].
    cbn [filter] in Hload. destruct (isSetEvents a) eqn:L.
    + left. cbn [List.length] in Hload. destruct Hload as [Hload|[Hload _]]; lia.
    + destruct Hload as [Hload|[Hload He]]; [now left|]. right.
      split; [exact Hload|]. now rewrite dispatch_events, update_events.
Qed.
End RenderFacts.

(** X1.  In every render the page commits, before as well as after the
    effects of a setter have run, the events on display are loaded events
    and "Showing n of m" has [n <= m], the events being loaded at most
    once as [loadEvents] does; once the effects of the last setter have
    run, the list on display is the one derived from the loaded events
    and the criteria. *)
Theorem displayed_events_are_loaded `{JsHost} (params : URLSearchParams.t)
  (actions : list Action) :
  (List.length (filter isSetEvents actions) <= 1)%nat ->
  (forall st, In st (committedFrom params actions) ->
     (forall e, In e (filteredEvents st) -> In e (events st)) /\
     (List.length (filteredEvents st) <= List.length (events st))%nat) /\
  filteredEvents (run actions (mount params)) =
    derive (events (run actions (mount params)))
      (criteria (run actions (mount params))).
Proof.
  intros Hload. split; [|apply run_mount_in_sync].
  intros st Hin. unfold committedFrom in Hin. destruct Hin as [<-|[<-|Hin]].
  - split; [intros e He; exact He | apply Nat.le_0_l].
  - apply in_sync_showsLoaded, mount_in_sync.
  - apply (committed_showsLoaded actions (mount params)); try assumption.
    + reflexivity.
    + right. now split.
Qed.

Lemma displayed_events_are_loaded_witness :
  (forall e,
     In e (filteredEvents
             (update (SetSearchQuery "art")
                (dispatch (H := AsciiHost) (SetEvents exampleEvents)
                   (mount (H := AsciiHost) URLSearchParams.empty)))) ->
     In e exampleEvents) /\
  (List.length
     (filteredEvents
        (update (SetSearchQuery "art")
           (dispatch (H := AsciiHost) (SetEvents exampleEvents)
              (mount (H := AsciiHost) URLSearchParams.empty)))) <= 2)%nat.
Proof.
  assert (Hload : (List.length
                     (filter isSetEvents
                        [SetEvents exampleEvents; SetSearchQuery "art"]) <= 1)%nat)
    by (simpl; lia).
  apply (proj1 (displayed_events_are_loaded (H := AsciiHost) URLSearchParams.empty
                  [SetEvents exampleEvents; SetSearchQuery "art"] Hload)).
  simpl. auto 8.
Defined.

(** X19.  Once loading is over and the effects of the last setter have
    run, "No events found" is shown iff no loaded event passes the four
    filters; otherwise the cards are the derived list and the line reads
    "Showing n of m" with [0 < n <= m].  The render between a setter and
    its effects still shows the list derived before the setter: the
    render right after the load shows "No events found", whatever was
    loaded. *)
Theorem view_after_load `{JsHost} (params : URLSearchParams.t)
  (actions : list Action) :
  let st := run actions (mount params) in
  (loading st = false ->
     (pageView st = NoEventsFound <->
        forall e, In e (events st) -> keepsAll (criteria st) e = false) /\
     (forall n m cards, pageView st = Results n m cards ->
        cards = derive (events st) (criteria st) /\
        n = List.length cards /\ m = List.length (events st) /\
        (0 < n <= m)%nat)) /\
  (forall a, filteredEvents (update a st) = derive (events st) (criteria st)) /\
  ((forall l, ~ In (SetEvents l) actions) ->
     forall mockEvents,
       pageView (update (SetEvents mockEvents) st) = NoEventsFound).
Proof.
  intros st.
  pose proof (run_mount_in_sync params actions) as Hd. fold st in Hd.
  split; [|split].
  - intros Hl.
    assert (Hle : (List.length (filteredEvents st) <= List.length (events st))%nat)
      by (rewrite Hd; apply derive_length).
    unfold pageView. rewrite Hl. split.
    + destruct (filteredEvents st) as [|x l] eqn:Ef; simpl.
      * split; [|reflexivity]. intros _ e He.
        destruct (keepsAll (criteria st) e) eqn:K; [|reflexivity].
        assert (Hin : In e (derive (events st) (criteria st)))
          by (apply derive_In; now split).
        rewrite <- Hd in Hin. contradiction.
      * split; [discriminate|]. intros Hnone. exfalso.
        assert (Hx : In x (derive (events st) (criteria st)))
          by (rewrite <- Hd; now left).
        apply derive_In in Hx. destruct Hx as [Hx K].
        rewrite (Hnone x Hx) in K. discriminate.
    + intros n m cards.
      destruct (List.length (filteredEvents st) =? 0)%nat eqn:Z0; [discriminate|].
      intros E. injection E as <- <- <-. apply Nat.eqb_neq in Z0.
      repeat split; try assumption; lia.
  - intros a. now rewrite update_filteredEvents.
  - intros Hno mockEvents.
    destruct (run_not_loaded actions (mount params) Hno) as [_ He]. fold st in He.
    unfold pageView. change (loading (update (SetEvents mockEvents) st)) with false.
    rewrite update_filteredEvents, Hd, He, derive_nil. reflexivity.
Qed.

Lemma view_after_load_witness :
  pageView (run (H := AsciiHost) [SetEvents exampleEvents; SetSearchQuery "opera"]
              (mount (H := AsciiHost) URLSearchParams.empty)) = NoEventsFound /\
  pageView (update (SetEvents exampleEvents)
              (run (H := AsciiHost) [SetSortBy "name"]
                 (mount (H := AsciiHost) URLSearchParams.empty))) = NoEventsFound.
Proof.
  split.
  - apply (proj1 (view_after_load (H := AsciiHost) URLSearchParams.empty
                    [SetEvents exampleEvents; SetSearchQuery "opera"])).
    + reflexivity.
    + intros e [<-|[<-|[]]]; reflexivity.
  - apply (proj2 (proj2 (view_after_load (H := AsciiHost) URLSearchParams.empty
                           [SetSortBy "name"]))).
    intros l [E|[]]. discriminate E.
Defined.
